(** * Tolerant batch pipelines: statistics, radix conversion, word count

    A shallow embedding of the three programs
    [computeStatistics.py], [convertNumbers.py] and [wordCount.py],
    followed by the properties established about them.

    Conventions of the embedding.
    - A Python [str] is a [string]: a sequence of code points, here
      restricted to U+0000..U+00FF (one [ascii] per code point).
    - A Python [int] is a [Z]; [//] and [%] are [Z.div] and [Z.modulo]
      (both round towards minus infinity, as in Python).
    - A Python [float] is a primitive binary64 [float].
    - A call either returns or raises: [outcome].  A [while] loop is
      unrolled under a step budget; [Timeout] says the budget ran out. *)

From Stdlib Require Import ZArith List Bool Lia String Ascii DecimalString.
From Stdlib Require Import Floats Uint63 Permutation Sorted.
Import ListNotations.

Local Open Scope string_scope.
Local Open Scope list_scope.
Local Open Scope Z_scope.

(** ** Python prelude *)

Module Py.

Inductive exn : Set :=
| ZeroDivisionError
| IndexError
| KeyError
| ValueError
| UnicodeDecodeError.

Inductive outcome (A : Type) : Type :=
| Returns (a : A)
| Raises (e : exn)
| Timeout.

Arguments Returns {A} a.
Arguments Raises {A} e.
Arguments Timeout {A}.

Definition bind {A B : Type} (m : outcome A) (k : A -> outcome B) : outcome B :=
  match m with
  | Returns a => k a
  | Raises e => Raises e
  | Timeout => Timeout
  end.

(** [str(n)] for an [int] of at most 4300 decimal digits.  Beyond
    that default limit CPython's [str] raises [ValueError]; the model
    leaves that out, and statements that convert an unbounded integer
    carry the bound as a hypothesis. *)
Definition str_of_int (n : Z) : string :=
  NilZero.string_of_int (Z.to_int n).

(** [s[i]] on a [str]: a negative index counts from the end. *)
Definition str_getitem (s : string) (i : Z) : outcome string :=
  let n := Z.of_nat (String.length s) in
  let j := if i <? 0 then i + n else i in
  if (j <? 0) || (n <=? j) then Raises IndexError
  else match String.get (Z.to_nat j) s with
       | Some c => Returns (String c EmptyString)
       | None => Raises IndexError
       end.

(** [sep.join(parts)] with the empty separator. *)
Definition join (parts : list string) : string :=
  String.concat EmptyString parts.

(** [str(n)] for a non-negative count or line number. *)
Definition str_of_nat (n : nat) : string :=
  str_of_int (Z.of_nat n).

Definition code (c : ascii) : Z := Z.of_N (N_of_ascii c).

(** [c.isspace()] below U+0100: TAB..CR, FS..US, SPACE, NEL, NBSP. *)
Definition isspace (c : ascii) : bool :=
  let k := code c in
  ((9 <=? k) && (k <=? 13)) || ((28 <=? k) && (k <=? 32))
  || (k =? 133) || (k =? 160).

(** [c in chars]. *)
Fixpoint contains (chars : string) (c : ascii) : bool :=
  match chars with
  | EmptyString => false
  | String d chars' => Ascii.eqb d c || contains chars' c
  end.

Fixpoint lstrip_by (drop : ascii -> bool) (s : string) : string :=
  match s with
  | EmptyString => EmptyString
  | String c s' => if drop c then lstrip_by drop s' else s
  end.

Fixpoint rstrip_by (drop : ascii -> bool) (s : string) : string :=
  match s with
  | EmptyString => EmptyString
  | String c s' =>
      match rstrip_by drop s' with
      | EmptyString => if drop c then EmptyString else String c EmptyString
      | r => String c r
      end
  end.

Definition strip_by (drop : ascii -> bool) (s : string) : string :=
  rstrip_by drop (lstrip_by drop s).

(** [s.strip()]: whitespace removed from both ends. *)
Definition strip (s : string) : string := strip_by isspace s.

(** [s.strip(chars)]: characters of [chars] removed from both ends. *)
Definition strip_chars (chars s : string) : string :=
  strip_by (contains chars) s.

(** [c.lower()] below U+0100: [A-Z] and the Latin-1 capitals
    U+00C0..U+00DE (the multiplication sign U+00D7 apart). *)
Definition lower_char (c : ascii) : ascii :=
  let k := code c in
  if ((65 <=? k) && (k <=? 90))
     || ((192 <=? k) && (k <=? 222) && negb (k =? 215))
  then ascii_of_N (Z.to_N (k + 32))
  else c.

(** [s.lower()], one character at a time on this alphabet.  (Beyond
    U+00FF lower-casing can change the number of code points.) *)
Fixpoint lower (s : string) : string :=
  match s with
  | EmptyString => EmptyString
  | String c s' => String (lower_char c) (lower s')
  end.

(** [s.split()]: the maximal runs of non-whitespace characters.
    [cur] is the run being read. *)
Fixpoint split_from (cur : string) (s : string) : list string :=
  match s with
  | EmptyString =>
      match cur with EmptyString => [] | _ => [cur] end
  | String c s' =>
      if isspace c then
        match cur with
        | EmptyString => split_from EmptyString s'
        | _ => cur :: split_from EmptyString s'
        end
      else split_from (cur ++ String c EmptyString)%string s'
  end.

Definition split (s : string) : list string := split_from EmptyString s.

(** Truth value of a [str]: non-empty. *)
Definition truthy (s : string) : bool :=
  match s with EmptyString => false | _ => true end.

(** [l[i]] on a list: a negative index counts from the end. *)
Definition list_getitem {A : Type} (l : list A) (i : Z) : outcome A :=
  let n := Z.of_nat (List.length l) in
  let j := if i <? 0 then i + n else i in
  if (j <? 0) || (n <=? j) then Raises IndexError
  else match nth_error l (Z.to_nat j) with
       | Some a => Returns a
       | None => Raises IndexError
       end.

(** Conversion of an [int] operand of a float operation; exact below
    2^53 and rounded to nearest-even up to 2^63 (list lengths never
    reach that). *)
Definition float_of_int (n : Z) : float :=
  if n <? 0 then PrimFloat.opp (PrimFloat.of_uint63 (Uint63.of_Z (- n)))
  else PrimFloat.of_uint63 (Uint63.of_Z n).

(** [x / n] with [x] a float and [n] an int. *)
Definition truediv_int (x : float) (n : Z) : outcome float :=
  if n =? 0 then Raises ZeroDivisionError
  else Returns (PrimFloat.div x (float_of_int n)).

(** What opening and decoding a file as UTF-8 text gives: the text
    (newlines already translated to LF), or a decoding failure. *)
Inductive file_content : Type :=
| InvalidUtf8
| Utf8Text (text : string).

Definition LF : ascii := ascii_of_nat 10.

(** Iterating a text file: the lines, each with its final LF. *)
Fixpoint readlines_from (cur : string) (text : string) : list string :=
  match text with
  | EmptyString =>
      match cur with EmptyString => [] | _ => [cur] end
  | String c text' =>
      if Ascii.eqb c LF
      then (cur ++ String c EmptyString)%string :: readlines_from EmptyString text'
      else readlines_from (cur ++ String c EmptyString)%string text'
  end.

Definition readlines (text : string) : list string :=
  readlines_from EmptyString text.

(** [sep.join(parts)]. *)
Definition join_with (sep : string) (parts : list string) : string :=
  String.concat sep parts.

(** The line separator of the reports. *)
Definition NEWLINE : string := String LF EmptyString.

(** Truth value of a list: non-empty. *)
Definition truthy_list {A : Type} (l : list A) : bool :=
  match l with [] => false | _ => true end.

(** [sorted(words)] on strings: the stable ascending order, found with
    [<] (code points compared left to right, a proper prefix first). *)
Fixpoint insert_sorted_str (x : string) (l : list string) : list string :=
  match l with
  | [] => [x]
  | y :: l' => if String.ltb y x then y :: insert_sorted_str x l' else x :: l
  end.

Definition sorted_str (words : list string) : list string :=
  fold_right insert_sorted_str [] words.

End Py.

Notation "x <- m ;; k" := (Py.bind m (fun x => k))
  (at level 61, m at next level, right associativity).

Import Py.

(** ** convertNumbers.py *)

Module ConvertNumbers.

Definition HEX_DIGITS : string := "0123456789ABCDEF".

Section Parse.

(** The builtin [int(text)] on a stripped, non-empty line: [None]
    is [ValueError]. *)
Variable py_int : string -> option Z.

(** Body of the [for] loop of [parse_integers], on the pair
    [(values, errors)]. *)
Definition parse_line (state : list Z * list string)
           (line_number : nat) (raw_line : string)
  : list Z * list string :=
  let '(values, errors) := state in
  let text := strip raw_line in
  if negb (truthy text) then
    (values,
     errors ++ [("Line " ++ str_of_nat line_number
                 ++ ": empty line (skipped).")%string])
  else
    match py_int text with
    | Some n => (values ++ [n], errors)
    | None =>
        (values,
         errors ++ [("Line " ++ str_of_nat line_number
                     ++ ": invalid integer '" ++ text
                     ++ "' (skipped).")%string])
    end.

Fixpoint parse_lines (state : list Z * list string)
         (line_number : nat) (lines : list string)
  : list Z * list string :=
  match lines with
  | [] => state
  | raw_line :: rest =>
      parse_lines (parse_line state line_number raw_line) (S line_number) rest
  end.

Definition parse_integers (file : file_content)
  : outcome (list Z * list string) :=
  match file with
  | InvalidUtf8 => Raises UnicodeDecodeError
  | Utf8Text text => Returns (parse_lines ([], []) 1%nat (readlines text))
  end.

End Parse.

(** The [while n > 0] loop of [to_base]; [digits] is the list being
    appended to. *)
Fixpoint to_base_loop (fuel : nat) (n base : Z) (digits : list string)
  : outcome (list string) :=
  if 0 <? n then
    match fuel with
    | O => Timeout
    | S fuel' =>
        if base =? 0 then Raises ZeroDivisionError
        else
          let remainder := n mod base in
          digit <- (if base =? 16 then str_getitem HEX_DIGITS remainder
                    else Returns (str_of_int remainder)) ;;
          to_base_loop fuel' (n / base) base (digits ++ [digit])
    end
  else Returns digits.

Definition to_base (fuel : nat) (number base : Z) : outcome string :=
  if number =? 0 then Returns "0"
  else
    let is_negative := number <? 0 in
    let n := if is_negative then - number else number in
    digits <- to_base_loop fuel n base [] ;;
    let result := join (rev digits) in
    Returns (if is_negative then ("-" ++ result)%string else result).

Section Report.

(** The builtin formatting of a float with six decimals. *)
Variable py_format_6f : float -> string.

(** The [for value in values] loop of [build_report], appending one
    line per value to [lines]. *)
Fixpoint conversion_lines (fuel : nat) (lines : list string) (values : list Z)
  : outcome (list string) :=
  match values with
  | [] => Returns lines
  | value :: rest =>
      binary <- to_base fuel value 2 ;;
      hexa <- to_base fuel value 16 ;;
      conversion_lines fuel
        (lines ++ [(str_of_int value ++ " -> " ++ binary ++ " | " ++ hexa)%string])
        rest
  end.

(** The list [lines] that [build_report] joins. *)
Definition report_lines (fuel : nat) (values : list Z) (errors : list string)
           (elapsed_seconds : float) : outcome (list string) :=
  let lines := ["NUMBER CONVERSION RESULTS";
                "-------------------------";
                "FORMAT: DECIMAL -> BINARY | HEX";
                EmptyString] in
  lines <- conversion_lines fuel lines values ;;
  let lines := lines ++ [EmptyString] in
  let lines :=
    if truthy_list errors
    then lines
         ++ ["Errors found while reading the file (execution continued):"]
         ++ errors ++ [EmptyString]
    else lines in
  Returns (lines
           ++ [("Elapsed time (seconds): " ++ py_format_6f elapsed_seconds)%string]).

Definition build_report (fuel : nat) (values : list Z) (errors : list string)
           (elapsed_seconds : float) : outcome string :=
  lines <- report_lines fuel values errors elapsed_seconds ;;
  Returns (join_with NEWLINE lines).

End Report.

End ConvertNumbers.

(** ** Reading a digit string back *)

Module Literal.

(** Value of one digit character: [0-9], [A-Z], [a-z]. *)
Definition digit_value (c : ascii) : option Z :=
  let k := Z.of_N (N_of_ascii c) in
  if (48 <=? k) && (k <=? 57) then Some (k - 48)
  else if (65 <=? k) && (k <=? 90) then Some (k - 55)
  else if (97 <=? k) && (k <=? 122) then Some (k - 87)
  else None.

(** Most significant digit first, every digit below [base]. *)
Fixpoint digits_value (base acc : Z) (s : string) : option Z :=
  match s with
  | EmptyString => Some acc
  | String c s' =>
      match digit_value c with
      | Some d => if d <? base then digits_value base (acc * base + d) s' else None
      | None => None
      end
  end.

(** A signed literal: an optional minus sign, then at least one
    digit. *)
Definition signed_literal (base : Z) (s : string) : option Z :=
  match s with
  | EmptyString => None
  | String c s' =>
      if Ascii.eqb c "-" then
        match s' with
        | EmptyString => None
        | _ => option_map Z.opp (digits_value base 0 s')
        end
      else digits_value base 0 s
  end.

End Literal.

(** ** Dictionaries

    A [dict] keeps its entries in insertion order, and finds a key by
    comparing it with the stored keys ([key_eqb]: identity, then
    [==]).  Assigning to a key that is present keeps the stored key. *)

Module Dict.
Section Dict.

Context {K V : Type}.
Variable key_eqb : K -> K -> bool.

Definition dict : Type := list (K * V).

Fixpoint lookup (d : dict) (k : K) : option V :=
  match d with
  | [] => None
  | (k', v) :: d' => if key_eqb k' k then Some v else lookup d' k
  end.

(** [d.get(k, default)]. *)
Definition get (d : dict) (k : K) (default : V) : V :=
  match lookup d k with
  | Some v => v
  | None => default
  end.

(** [d[k]]. *)
Definition getitem (d : dict) (k : K) : outcome V :=
  match lookup d k with
  | Some v => Returns v
  | None => Raises KeyError
  end.

(** [d[k] = v]. *)
Fixpoint setitem (d : dict) (k : K) (v : V) : dict :=
  match d with
  | [] => [(k, v)]
  | (k', v') :: d' =>
    if key_eqb k' k then (k', v) :: d' else (k', v') :: setitem d' k v
  end.

Definition keys (d : dict) : list K := map fst d.
Definition values (d : dict) : list V := map snd d.

End Dict.

(** The counting loop shared by [mode] and [count_frequencies]:
    [for x in xs: freq[x] = freq.get(x, 0) + 1], from an empty dict. *)
Definition count_into {K : Type} (key_eqb : K -> K -> bool)
           (freq : @dict K Z) (xs : list K) : @dict K Z :=
  fold_left (fun freq x => setitem key_eqb freq x (get key_eqb freq x 0 + 1))
            xs freq.

End Dict.

(** ** computeStatistics.py *)

Module ComputeStatistics.

(** A float object: its value, and the identity the interpreter gave
    it.  Two objects are the same object when they are the same
    record. *)
Record pyfloat : Type := PyFloat { oid : nat; fval : float }.

Definition is_ (a b : pyfloat) : bool :=
  Nat.eqb (oid a) (oid b) && PrimFloat.Leibniz.eqb (fval a) (fval b).

(** Key comparison of a dict of floats: [a is b or a == b]. *)
Definition float_key_eqb (a b : pyfloat) : bool :=
  is_ a b || PrimFloat.eqb (fval a) (fval b).

Section Parse.

(** The builtin [float(text)] on a stripped, non-empty line:
    [None] is [ValueError]. *)
Variable py_float : string -> option float.

(** Body of the [for] loop of [parse_numbers], on the pair
    [(numbers, errors)]. *)
Definition parse_line (state : list pyfloat * list string)
           (line_number : nat) (raw_line : string)
  : list pyfloat * list string :=
  let '(numbers, errors) := state in
  let text := strip raw_line in
  if negb (truthy text) then
    (numbers,
     errors ++ [("Line " ++ str_of_nat line_number
                 ++ ": empty line (skipped).")%string])
  else
    match py_float text with
    | Some x => (numbers ++ [PyFloat line_number x], errors)
    | None =>
        (numbers,
         errors ++ [("Line " ++ str_of_nat line_number
                     ++ ": invalid number '" ++ text
                     ++ "' (skipped).")%string])
    end.

(** [for line_number, raw_line in enumerate(file, start)]: the lines,
    numbered from [line_number]. *)
Fixpoint parse_lines (state : list pyfloat * list string)
         (line_number : nat) (lines : list string)
  : list pyfloat * list string :=
  match lines with
  | [] => state
  | raw_line :: rest =>
      parse_lines (parse_line state line_number raw_line) (S line_number) rest
  end.

Definition parse_numbers (file : file_content)
  : outcome (list pyfloat * list string) :=
  match file with
  | InvalidUtf8 => Raises UnicodeDecodeError
  | Utf8Text text => Returns (parse_lines ([], []) 1%nat (readlines text))
  end.

End Parse.

Definition mean (values : list float) : outcome float :=
  let total := fold_left PrimFloat.add values 0%float in
  truediv_int total (Z.of_nat (List.length values)).

(** [sorted(values)]: the stable ascending order, found with [<]
    only.  On floats without NaN, [<] is a strict weak order and the
    stable order is unique, whatever the sorting algorithm.  With a NaN
    in the list the order CPython returns depends on its algorithm and
    is not the one computed here. *)
Fixpoint insert_sorted (x : float) (l : list float) : list float :=
  match l with
  | [] => [x]
  | y :: l' => if PrimFloat.ltb y x then y :: insert_sorted x l' else x :: l
  end.

Definition sorted (values : list float) : list float :=
  fold_right insert_sorted [] values.

Definition median (values : list float) : outcome float :=
  let sorted_values := sorted values in
  let n := Z.of_nat (List.length sorted_values) in
  let mid := n / 2 in
  if n mod 2 =? 1 then list_getitem sorted_values mid
  else
    a <- list_getitem sorted_values (mid - 1) ;;
    b <- list_getitem sorted_values mid ;;
    Returns (PrimFloat.div (PrimFloat.add a b) 2%float).

(** [max(freq.values(), default=0)]. *)
Definition max_default0 (counts : list Z) : Z :=
  match counts with
  | [] => 0
  | c :: cs => fold_left Z.max cs c
  end.

(** The second loop of [mode]: the first value whose count is
    [max_count], as a one-element list. *)
Fixpoint first_with_count (freq : @Dict.dict pyfloat Z) (max_count : Z)
         (values : list pyfloat) : outcome (list pyfloat) :=
  match values with
  | [] => Returns []
  | value :: rest =>
      c <- Dict.getitem float_key_eqb freq value ;;
      if c =? max_count then Returns [value]
      else first_with_count freq max_count rest
  end.

Definition mode (values : list pyfloat) : outcome (list pyfloat) :=
  let freq := Dict.count_into float_key_eqb [] values in
  let max_count := max_default0 (Dict.values freq) in
  if max_count <=? 1 then Returns []
  else first_with_count freq max_count values.

Definition population_variance (values : list float) (mean_value : float)
  : outcome float :=
  let total :=
    fold_left (fun total value =>
                 let diff := PrimFloat.sub value mean_value in
                 PrimFloat.add total (PrimFloat.mul diff diff))
              values 0%float in
  if Z.of_nat (List.length values) <? 2 then Returns 0%float
  else truediv_int total (Z.of_nat (List.length values) - 1).

(** [math.sqrt] raises [ValueError] below zero, and only there. *)
Definition population_std_dev (variance_value : float) : outcome float :=
  if PrimFloat.ltb variance_value 0%float then Raises ValueError
  else Returns (PrimFloat.sqrt variance_value).

Section Report.

(** The builtins [str] on a float, and the formatting of a float with
    six decimals. *)
Variable py_str_float : float -> string.
Variable py_format_6f : float -> string.

(** The list [lines] that [build_report] joins. *)
Definition report_lines (values : list pyfloat) (errors : list string)
           (elapsed_seconds : float) : outcome (list string) :=
  if negb (truthy_list values) then
    Returns (["No valid numeric data found. Cannot compute statistics.";
              EmptyString;
              "Errors found while reading the file:"]
             ++ errors
             ++ [EmptyString;
                 ("Elapsed time (seconds): "
                  ++ py_format_6f elapsed_seconds)%string])
  else
    mean_value <- mean (map fval values) ;;
    median_value <- median (map fval values) ;;
    modes <- mode values ;;
    variance_value <- population_variance (map fval values) mean_value ;;
    std_value <- population_std_dev variance_value ;;
    let lines :=
      ["DESCRIPTIVE STATISTICS (POPULATION)";
       "---------------------------------";
       ("COUNT: " ++ str_of_nat (List.length values))%string;
       ("MEAN: " ++ py_str_float mean_value)%string;
       ("MEDIAN: " ++ py_str_float median_value)%string;
       (if truthy_list modes
        then ("MODE: "
              ++ join_with ", " (map (fun m => py_str_float (fval m)) modes))%string
        else "MODE: No mode.");
       ("POPULATION STANDARD DEVIATION: " ++ py_str_float std_value)%string;
       ("POPULATION VARIANCE: " ++ py_str_float variance_value)%string;
       EmptyString] in
    let lines :=
      if truthy_list errors
      then lines
           ++ ["Errors found while reading the file (execution continued):"]
           ++ errors ++ [EmptyString]
      else lines in
    Returns (lines
             ++ [("Elapsed time (seconds): "
                  ++ py_format_6f elapsed_seconds)%string]).

Definition build_report (values : list pyfloat) (errors : list string)
           (elapsed_seconds : float) : outcome string :=
  lines <- report_lines values errors elapsed_seconds ;;
  Returns (join_with NEWLINE lines).

End Report.

End ComputeStatistics.

(** ** wordCount.py *)

Module WordCount.

(** The characters [normalize_word] strips: full stop, comma,
    semicolon, colon, exclamation and question marks, double quote
    (code 34), apostrophe, and the round, square and curly brackets. *)
Definition PUNCTUATION : string :=
  (".,;:!?" ++ String (ascii_of_nat 34) "'()[]{}")%string.

Definition normalize_word (token : string) : string :=
  lower (strip_chars PUNCTUATION token).

(** The [for token in tokens] loop, on the list [words]. *)
Definition collect_words (words : list string) (tokens : list string)
  : list string :=
  fold_left (fun words token =>
               let word := normalize_word token in
               if truthy word then words ++ [word] else words)
            tokens words.

(** Returns [(words, messages)]. *)
Definition read_words (file : file_content) : list string * list string :=
  let messages := @nil string in
  let words := @nil string in
  match file with
  | InvalidUtf8 =>
      (words, messages ++ ["File encoding error: could not read as UTF-8."])
  | Utf8Text text =>
      let tokens := split text in
      match tokens with
      | [] => (words, messages ++ ["Warning: file contained no readable tokens."])
      | _ => (collect_words words tokens, messages)
      end
  end.

Definition count_frequencies (words : list string) : @Dict.dict string Z :=
  Dict.count_into String.eqb [] words.

Section Report.

(** The builtin formatting of a float with six decimals. *)
Variable py_format_6f : float -> string.

(** The [for word in sorted(freq.keys())] loop of [build_report],
    appending one line per word to [lines]. *)
Fixpoint word_lines (freq : @Dict.dict string Z) (lines : list string)
         (words : list string) : outcome (list string) :=
  match words with
  | [] => Returns lines
  | word :: rest =>
      count <- Dict.getitem String.eqb freq word ;;
      word_lines freq (lines ++ [(word ++ ": " ++ str_of_int count)%string]) rest
  end.

(** The list [lines] that [build_report] joins. *)
Definition report_lines (freq : @Dict.dict string Z) (messages : list string)
           (elapsed_seconds : float) : outcome (list string) :=
  let lines := ["WORD COUNT RESULTS";
                "------------------";
                ("DISTINCT WORDS: " ++ str_of_nat (List.length freq))%string;
                EmptyString] in
  lines <- word_lines freq lines (sorted_str (Dict.keys freq)) ;;
  let lines := lines ++ [EmptyString] in
  let lines :=
    if truthy_list messages
    then lines
         ++ ["Messages while reading the file (execution continued):"]
         ++ messages ++ [EmptyString]
    else lines in
  Returns (lines
           ++ [("Elapsed time (seconds): " ++ py_format_6f elapsed_seconds)%string]).

Definition build_report (freq : @Dict.dict string Z) (messages : list string)
           (elapsed_seconds : float) : outcome string :=
  lines <- report_lines freq messages elapsed_seconds ;;
  Returns (join_with NEWLINE lines).

End Report.

End WordCount.

(** ** Vocabulary of the statements *)

Module Spec.

Fixpoint all_chars (p : ascii -> bool) (s : string) : bool :=
  match s with
  | EmptyString => true
  | String c s' => p c && all_chars p s'
  end.

Definition first_char (s : string) : option ascii :=
  match s with
  | EmptyString => None
  | String c _ => Some c
  end.

Fixpoint last_char (s : string) : option ascii :=
  match s with
  | EmptyString => None
  | String c EmptyString => Some c
  | String _ s' => last_char s'
  end.

(** Number of elements of [xs] that are the key [k]. *)
Definition frequency {K : Type} (key_eqb : K -> K -> bool)
           (k : K) (xs : list K) : Z :=
  Z.of_nat (List.length (filter (fun x => key_eqb x k) xs)).

(** The largest frequency of an element of [xs]; 0 on the empty list. *)
Definition max_frequency {K : Type} (key_eqb : K -> K -> bool)
           (xs : list K) : Z :=
  fold_right Z.max 0 (map (fun x => frequency key_eqb x xs) xs).

Definition sum (counts : list Z) : Z := fold_right Z.add 0 counts.

(** No key of [d] is found again further down [d]. *)
Fixpoint distinct_keys {K V : Type} (key_eqb : K -> K -> bool)
         (d : @Dict.dict K V) : Prop :=
  match d with
  | [] => True
  | (k, _) :: d' => Dict.lookup key_eqb d' k = None /\ distinct_keys key_eqb d'
  end.

(** The squared deviations from [m], summed from the left. *)
Definition sum_squared_deviations (values : list float) (m : float) : float :=
  fold_left PrimFloat.add
            (map (fun v => PrimFloat.mul (PrimFloat.sub v m) (PrimFloat.sub v m))
                 values)
            0%float.

Definition not_nan (x : float) : Prop := PrimFloat.is_nan x = false.

Definition float_le (x y : float) : Prop := PrimFloat.leb x y = true.

(** Equal as Python floats: [x == y]. *)
Definition float_eq (x y : float) : Prop := PrimFloat.eqb x y = true.

(** On the specification side of binary64: a zero of either sign. *)
Definition sf_is_zero (x : spec_float) : Prop :=
  match x with S754_zero _ => True | _ => False end.

(** Neither NaN nor an infinity. *)
Definition sf_finite (x : spec_float) : Prop :=
  match x with S754_zero _ | S754_finite _ _ _ => True | _ => False end.

(** The same number: identical, or two zeros. *)
Definition sf_same (x y : spec_float) : Prop :=
  x = y \/ (sf_is_zero x /\ sf_is_zero y).

(** NaN, or a zero, infinity or finite number with the sign bit
    clear. *)
Definition sf_not_negative (x : spec_float) : Prop :=
  match x with
  | S754_nan => True
  | S754_zero s | S754_infinity s | S754_finite s _ _ => s = false
  end.

(** The digit characters [to_base] writes in base 16, and in the
    other bases up to ten. *)
Definition alphabet (base : Z) : string :=
  if base =? 16 then ConvertNumbers.HEX_DIGITS else "01".

(** The optional block of a report that lists the messages. *)
Definition message_block (header : string) (messages : list string)
  : list string :=
  match messages with
  | [] => []
  | _ => header :: messages ++ [EmptyString]
  end.

(** CPython's default limit on the number of digits of an [int] that
    [str] converts. *)
Definition MAX_STR_DIGITS : Z := 4300.

(** What one line of the file gives [parse_numbers]: the float object
    read on the stripped line, or the message for a blank or rejected
    line. *)
Definition number_line_outcome (py_float : string -> option float)
           (line_number : nat) (raw_line : string)
  : ComputeStatistics.pyfloat + string :=
  match strip raw_line with
  | EmptyString =>
      inr ("Line " ++ str_of_nat line_number ++ ": empty line (skipped).")%string
  | text =>
      match py_float text with
      | Some x => inl (ComputeStatistics.PyFloat line_number x)
      | None =>
          inr ("Line " ++ str_of_nat line_number ++ ": invalid number '"
               ++ text ++ "' (skipped).")%string
      end
  end.

(** What one line of the file gives [parse_integers]. *)
Definition integer_line_outcome (py_int : string -> option Z)
           (line_number : nat) (raw_line : string) : Z + string :=
  match strip raw_line with
  | EmptyString =>
      inr ("Line " ++ str_of_nat line_number ++ ": empty line (skipped).")%string
  | text =>
      match py_int text with
      | Some n => inl n
      | None =>
          inr ("Line " ++ str_of_nat line_number ++ ": invalid integer '"
               ++ text ++ "' (skipped).")%string
      end
  end.

(** The outcomes of the lines, numbered from [line_number], in file
    order. *)
Fixpoint outcomes_from {A : Type} (outcome : nat -> string -> A)
         (line_number : nat) (lines : list string) : list A :=
  match lines with
  | [] => []
  | raw_line :: rest =>
      outcome line_number raw_line :: outcomes_from outcome (S line_number) rest
  end.

(** The values, and the messages, of a list of outcomes, in order. *)
Fixpoint lefts {A B : Type} (l : list (A + B)) : list A :=
  match l with
  | [] => []
  | inl a :: l' => a :: lefts l'
  | inr _ :: l' => lefts l'
  end.

Fixpoint rights {A B : Type} (l : list (A + B)) : list B :=
  match l with
  | [] => []
  | inl _ :: l' => rights l'
  | inr b :: l' => b :: rights l'
  end.

(** A text file with the given lines. *)
Definition file_of_lines (lines : list string) : file_content :=
  Utf8Text (String.concat (String LF EmptyString) lines).

(** A reading of the literals made of decimal digits only, the part
    of [float] and [int] that the examples exercise. *)
Definition int_of_digits (text : string) : option Z :=
  match text with
  | EmptyString => None
  | _ => Literal.digits_value 10 0 text
  end.

Definition float_of_digits (text : string) : option float :=
  option_map float_of_int (int_of_digits text).

End Spec.

Import ConvertNumbers Literal ComputeStatistics WordCount Spec.

(** * Properties *)

(** ** Strings *)

Lemma string_app_nil_r (a : string) : (a ++ EmptyString)%string = a.
Proof. induction a as [| c a IH]; simpl; [| rewrite IH]; reflexivity. Qed.

Lemma string_app_assoc (a b c : string) :
  ((a ++ b) ++ c = a ++ (b ++ c))%string.
Proof. induction a as [| x a IH]; simpl; [| rewrite IH]; reflexivity. Qed.

Lemma join_app (l1 l2 : list string) :
  join (l1 ++ l2) = (join l1 ++ join l2)%string.
Proof.
  unfold join.
  induction l1 as [| x [| y l1'] IH]; simpl in *.
  - reflexivity.
  - destruct l2; simpl.
    + now rewrite string_app_nil_r.
    + reflexivity.
  - rewrite IH. now rewrite string_app_assoc.
Qed.

(** ** Radix conversion *)

Section ToBase.

Variable base : Z.
Hypothesis base_2_or_16 : base = 2 \/ base = 16.

(** The digit appended for a remainder is one character, and that
    character reads back as the remainder. *)
Lemma digit_of_remainder (r : Z) :
  0 <= r < base ->
  exists c,
    (if base =? 16 then str_getitem HEX_DIGITS r
     else Returns (str_of_int r)) = Returns (String c EmptyString)
    /\ digit_value c = Some r.
Proof.
  intros Hr.
  destruct base_2_or_16 as [-> | ->].
  - assert (r = 0 \/ r = 1) as [-> | ->] by lia;
      eexists; split; reflexivity.
  - assert (r = 0 \/ r = 1 \/ r = 2 \/ r = 3 \/ r = 4 \/ r = 5 \/ r = 6
            \/ r = 7 \/ r = 8 \/ r = 9 \/ r = 10 \/ r = 11 \/ r = 12
            \/ r = 13 \/ r = 14 \/ r = 15) as Hcases by lia.
    repeat (destruct Hcases as [-> | Hcases];
            [eexists; split; reflexivity | ]).
    subst r; eexists; split; reflexivity.
Qed.

(** The loop returns within [fuel] steps when [n < 2 ^ fuel], and the
    digits it appends, read most significant first, extend any
    value [k] read so far to [k * base ^ length + n]. *)
Lemma to_base_loop_spec (fuel : nat) :
  forall n acc,
    0 <= n < 2 ^ Z.of_nat fuel ->
    exists ds,
      to_base_loop fuel n base acc = Returns (acc ++ ds)
      /\ (0 < n -> join (rev ds) <> EmptyString)
      /\ forall k tail,
          digits_value base k (join (rev ds) ++ tail)%string
          = digits_value base (k * base ^ Z.of_nat (List.length ds) + n) tail.
Proof.
  assert (Hbase : 2 <= base) by (destruct base_2_or_16; lia).
  induction fuel as [| fuel IH]; intros n acc Hn.
  - assert (n = 0) by (simpl in Hn; lia). subst n.
    exists []. simpl. rewrite app_nil_r. repeat split; try lia.
    intros k tail. f_equal. lia.
  - destruct (Z.eq_dec n 0) as [-> | Hnz].
    + exists []. simpl. rewrite app_nil_r. repeat split; try lia.
      intros k tail. f_equal. lia.
    + assert (Hpos : 0 < n) by lia.
      assert (Hr : 0 <= n mod base < base) by (apply Z.mod_pos_bound; lia).
      destruct (digit_of_remainder _ Hr) as (c & Hdigit & Hval).
      assert (Hq : 0 <= n / base < 2 ^ Z.of_nat fuel).
      { split; [apply Z.div_pos; lia |].
        apply Z.div_lt_upper_bound; [lia |].
        rewrite Nat2Z.inj_succ, Z.pow_succ_r in Hn by lia.
        assert (0 < 2 ^ Z.of_nat fuel) by (apply Z.pow_pos_nonneg; lia).
        nia. }
      destruct (IH (n / base) (acc ++ [String c EmptyString]) Hq)
        as (ds & Hloop & _ & Hread).
      exists (String c EmptyString :: ds).
      split; [| split].
      * cbn [to_base_loop].
        apply Z.ltb_lt in Hpos; rewrite Hpos.
        replace (base =? 0) with false by (symmetry; apply Z.eqb_neq; lia).
        cbv zeta. rewrite Hdigit. cbn [bind].
        rewrite Hloop, <- app_assoc. reflexivity.
      * intros _. cbn [rev]. rewrite join_app.
        destruct (join (rev ds)); discriminate.
      * intros k tail. cbn [rev List.length]. rewrite join_app.
        rewrite string_app_assoc, Hread.
        cbn [join String.concat String.append digits_value].
        rewrite Hval.
        replace (n mod base <? base) with true
          by (symmetry; apply Z.ltb_lt; lia).
        f_equal.
        rewrite Nat2Z.inj_succ, Z.pow_succ_r by lia.
        pose proof (Z.div_mod n base ltac:(lia)) as Hdm.
        set (q := n / base) in *. set (r := n mod base) in *.
        clearbody q r. subst n. ring.
Qed.

(** On a positive number: the digit string, and its value. *)
Lemma to_base_positive (fuel : nat) (n : Z) :
  0 < n < 2 ^ Z.of_nat fuel ->
  exists s,
    to_base fuel n base = Returns s
    /\ s <> EmptyString
    /\ digits_value base 0 s = Some n.
Proof.
  intros Hn.
  destruct (to_base_loop_spec fuel n [] ltac:(lia)) as (ds & Hloop & Hne & Hread).
  exists (join (rev ds)). unfold to_base.
  replace (n =? 0) with false by (symmetry; apply Z.eqb_neq; lia).
  replace (n <? 0) with false by (symmetry; apply Z.ltb_ge; lia).
  rewrite Hloop. cbn [bind app]. split; [reflexivity | split].
  - apply Hne; lia.
  - specialize (Hread 0 EmptyString).
    rewrite string_app_nil_r in Hread. rewrite Hread.
    cbn [digits_value]. f_equal.
Qed.

(** On a negative number the same digits follow a minus sign. *)
Lemma to_base_negative (fuel : nat) (n : Z) :
  n < 0 ->
  to_base fuel n base
  = (s <- to_base fuel (- n) base ;; Returns ("-" ++ s)%string).
Proof.
  intros Hn. unfold to_base.
  replace (n =? 0) with false by (symmetry; apply Z.eqb_neq; lia).
  replace (- n =? 0) with false by (symmetry; apply Z.eqb_neq; lia).
  replace (n <? 0) with true by (symmetry; apply Z.ltb_lt; lia).
  replace (- n <? 0) with false by (symmetry; apply Z.ltb_ge; lia).
  destruct (to_base_loop fuel (- n) base []); reflexivity.
Qed.

Lemma signed_literal_digits (s : string) (n : Z) :
  s <> EmptyString ->
  digits_value base 0 s = Some n ->
  signed_literal base s = Some n
  /\ signed_literal base ("-" ++ s)%string = Some (- n).
Proof.
  intros Hne Hs. split.
  - destruct s as [| c s']; [congruence |].
    unfold signed_literal.
    destruct (Ascii.eqb c "-") eqn:Hc; [| exact Hs].
    apply Ascii.eqb_eq in Hc. subst c. discriminate Hs.
  - cbn. destruct s; [congruence |]. now rewrite Hs.
Qed.

Lemma to_base_roundtrip_at (fuel : nat) (n : Z) :
  Z.abs n < 2 ^ Z.of_nat fuel ->
  exists s, to_base fuel n base = Returns s /\ signed_literal base s = Some n.
Proof.
  intros Hn.
  destruct (Z.lt_trichotomy n 0) as [Hneg | [-> | Hpos]].
  - destruct (to_base_positive fuel (- n) ltac:(lia)) as (s & Hs & Hne & Hval).
    exists ("-" ++ s)%string. rewrite to_base_negative, Hs by assumption.
    split; [reflexivity |].
    destruct (signed_literal_digits s (- n) Hne Hval) as [_ H].
    rewrite H. f_equal. lia.
  - exists "0". split; [reflexivity |].
    destruct base_2_or_16 as [-> | ->]; reflexivity.
  - destruct (to_base_positive fuel n ltac:(lia)) as (s & Hs & Hne & Hval).
    exists s. split; [assumption |].
    now apply signed_literal_digits.
Qed.

End ToBase.

(** C3. For every integer [n] (zero, negative, of any magnitude), once
    the step budget covers the bit length of [n], [to_base n 2] returns
    a string that reads back as [n] as a signed base-2 literal, and
    [to_base n 16] one that reads back as [n] as a signed base-16
    literal. *)
Theorem to_base_roundtrip (n : Z) (fuel : nat) :
  Z.abs n < 2 ^ Z.of_nat fuel ->
  (exists s, to_base fuel n 2 = Returns s /\ signed_literal 2 s = Some n)
  /\ (exists s, to_base fuel n 16 = Returns s /\ signed_literal 16 s = Some n).
Proof.
  intros Hn. split; apply to_base_roundtrip_at; auto.
Qed.

Lemma to_base_roundtrip_witness :
  Z.abs (-255) < 2 ^ Z.of_nat 8
  /\ (exists s, to_base 8 (-255) 2 = Returns s /\ signed_literal 2 s = Some (-255))
  /\ (exists s, to_base 8 (-255) 16 = Returns s /\ signed_literal 16 s = Some (-255)).
Proof.
  split; [reflexivity | apply (to_base_roundtrip (-255) 8); reflexivity].
Defined.

(** C4. Zero maps to the literal [0] in base 2 and in base 16; a
    negative integer maps to a minus sign followed by the conversion of
    its absolute value; and [to_base (-255) 16] is [-FF]. *)
Theorem to_base_zero_and_sign :
  (forall fuel, to_base fuel 0 2 = Returns "0" /\ to_base fuel 0 16 = Returns "0")
  /\ (forall fuel n base,
        n < 0 -> base = 2 \/ base = 16 -> Z.abs n < 2 ^ Z.of_nat fuel ->
        exists s,
          to_base fuel (Z.abs n) base = Returns s
          /\ to_base fuel n base = Returns ("-" ++ s)%string)
  /\ (forall fuel, (2 <= fuel)%nat -> to_base fuel (-255) 16 = Returns "-FF").
Proof.
  split; [| split].
  - intros fuel; split; reflexivity.
  - intros fuel n base Hneg Hbase Hfuel.
    destruct (to_base_positive base Hbase fuel (- n) ltac:(lia))
      as (s & Hs & _ & _).
    exists s. replace (Z.abs n) with (- n) by lia.
    split; [assumption |].
    rewrite to_base_negative, Hs by assumption. reflexivity.
  - intros fuel Hfuel.
    destruct fuel as [| [| [| fuel]]]; [lia | lia | reflexivity | reflexivity].
Qed.

Lemma to_base_zero_and_sign_witness :
  -255 < 0 /\ (16 = 2 \/ 16 = 16) /\ Z.abs (-255) < 2 ^ Z.of_nat 8
  /\ exists s,
      to_base 8 (Z.abs (-255)) 16 = Returns s
      /\ to_base 8 (-255) 16 = Returns ("-" ++ s)%string.
Proof.
  split; [reflexivity |]. split; [now right |]. split; [reflexivity |].
  apply (proj1 (proj2 to_base_zero_and_sign) 8%nat (-255) 16);
    [reflexivity | now right | reflexivity].
Defined.

(** ** Frequency tables *)

Section CountInto.

Context {K : Type}.
Variable key_eqb : K -> K -> bool.

Local Abbreviation lookup := (Dict.lookup key_eqb).
Local Abbreviation get := (Dict.get key_eqb).
Local Abbreviation setitem := (Dict.setitem key_eqb).
Local Abbreviation count_into := (Dict.count_into key_eqb).

(** *** Facts that hold for any key comparison *)

Lemma sum_bump (d : @Dict.dict K Z) (k : K) :
  sum (Dict.values (setitem d k (get d k 0 + 1))) = sum (Dict.values d) + 1.
Proof.
  unfold Dict.get.
  induction d as [| [k' v'] d IH]; simpl.
  - reflexivity.
  - destruct (key_eqb k' k); simpl.
    + lia.
    + unfold sum in *. simpl in *. rewrite IH. lia.
Qed.

Lemma positive_bump (d : @Dict.dict K Z) (k : K) :
  Forall (fun c => 1 <= c) (Dict.values d) ->
  Forall (fun c => 1 <= c) (Dict.values (setitem d k (get d k 0 + 1))).
Proof.
  unfold Dict.get.
  induction d as [| [k' v'] d IH]; simpl; intros Hd.
  - constructor; [lia | constructor].
  - inversion Hd as [| ? ? Hv Hd']; subst.
    destruct (key_eqb k' k); simpl; constructor; auto; lia.
Qed.

Lemma keys_setitem (d : @Dict.dict K Z) (k : K) (v : Z) (k' : K) :
  In k' (Dict.keys (setitem d k v)) -> In k' (Dict.keys d) \/ k' = k.
Proof.
  induction d as [| [k0 v0] d IH]; simpl.
  - intros [<- | []]; auto.
  - destruct (key_eqb k0 k); simpl; intros [<- | H]; auto.
    destruct (IH H); auto.
Qed.

Lemma setitem_not_empty (d : @Dict.dict K Z) (k : K) (v : Z) :
  setitem d k v <> [].
Proof. destruct d as [| [k0 v0] d]; simpl; [| destruct (key_eqb k0 k)]; discriminate. Qed.

Lemma lookup_found (d : @Dict.dict K Z) (k : K) (c : Z) :
  lookup d k = Some c ->
  exists k', In (k', c) d /\ key_eqb k' k = true.
Proof.
  induction d as [| [k0 v0] d IH]; simpl; [discriminate |].
  destruct (key_eqb k0 k) eqn:Hk.
  - intros [= <-]. exists k0; auto.
  - intros H. destruct (IH H) as (k' & Hin & Heq). exists k'; auto.
Qed.

Lemma lookup_missing (d : @Dict.dict K Z) (k : K) :
  lookup d k = None ->
  forall k' c, In (k', c) d -> key_eqb k' k = false.
Proof.
  induction d as [| [k0 v0] d IH]; simpl; [contradiction |].
  destruct (key_eqb k0 k) eqn:Hk; [discriminate |].
  intros H k' c [[= <- <-] | Hin]; eauto.
Qed.

Lemma count_into_sum (xs : list K) :
  forall d, sum (Dict.values (count_into d xs))
            = sum (Dict.values d) + Z.of_nat (List.length xs).
Proof.
  unfold Dict.count_into.
  induction xs as [| x xs IH]; intros d; simpl fold_left.
  - simpl. lia.
  - rewrite IH, sum_bump. simpl List.length. lia.
Qed.

Lemma count_into_positive (xs : list K) :
  forall d, Forall (fun c => 1 <= c) (Dict.values d) ->
            Forall (fun c => 1 <= c) (Dict.values (count_into d xs)).
Proof.
  unfold Dict.count_into.
  induction xs as [| x xs IH]; intros d Hd; simpl fold_left; auto.
  apply IH, positive_bump, Hd.
Qed.

Lemma count_into_keys (xs : list K) :
  forall d k, In k (Dict.keys (count_into d xs)) ->
              In k (Dict.keys d) \/ In k xs.
Proof.
  unfold Dict.count_into.
  induction xs as [| x xs IH]; intros d k; simpl fold_left; auto.
  intros H. destruct (IH _ _ H) as [H' | H']; [| right; right; exact H'].
  destruct (keys_setitem _ _ _ _ H') as [? | ->]; [left | right; left]; auto.
Qed.

Lemma count_into_not_empty (xs : list K) (d : @Dict.dict K Z) :
  xs <> [] -> count_into d xs <> [].
Proof.
  unfold Dict.count_into. revert d.
  induction xs as [| x [| y xs] IH]; intros d Hne; [congruence | |].
  - apply setitem_not_empty.
  - simpl fold_left in *. apply IH. discriminate.
Qed.

(** The table built from the empty dict: its counts add up to the
    length of the input, each is at least 1, every key is an element
    of the input, and a key comparing equal to no element of the
    input is not found. *)
Lemma frequency_table_invariants (xs : list K) :
  let freq := count_into [] xs in
  sum (Dict.values freq) = Z.of_nat (List.length xs)
  /\ Forall (fun c => 1 <= c) (Dict.values freq)
  /\ (forall k, In k (Dict.keys freq) -> In k xs)
  /\ (forall k, (forall x, In x xs -> key_eqb x k = false) -> lookup freq k = None).
Proof.
  intros freq. subst freq. repeat apply conj.
  - rewrite count_into_sum. reflexivity.
  - apply count_into_positive. constructor.
  - intros k H. destruct (count_into_keys _ _ _ H) as [[] | H']; exact H'.
  - intros k Hk.
    destruct (lookup (count_into [] xs) k) as [c |] eqn:Hl; [| reflexivity].
    destruct (lookup_found _ _ _ Hl) as (k' & Hin & Heq).
    assert (In k' xs) as Hin'.
    { destruct (count_into_keys xs [] k') as [[] | H']; [| exact H'].
      unfold Dict.keys. apply (in_map fst) in Hin. exact Hin. }
    rewrite (Hk _ Hin') in Heq. discriminate.
Qed.

(** *** Facts that need the comparison to be an equivalence *)

Hypothesis key_refl : forall x, key_eqb x x = true.
Hypothesis key_sym : forall x y, key_eqb x y = true -> key_eqb y x = true.
Hypothesis key_trans :
  forall x y z, key_eqb x y = true -> key_eqb y z = true -> key_eqb x z = true.

Lemma key_eqb_right (x y z : K) :
  key_eqb y z = true -> key_eqb x y = key_eqb x z.
Proof.
  intros Hyz.
  destruct (key_eqb x y) eqn:Hxy, (key_eqb x z) eqn:Hxz; auto.
  - rewrite (key_trans _ _ _ Hxy Hyz) in Hxz. discriminate.
  - rewrite (key_trans _ _ _ Hxz (key_sym _ _ Hyz)) in Hxy. discriminate.
Qed.

Lemma lookup_equal_keys (d : @Dict.dict K Z) (x k : K) :
  key_eqb x k = true -> lookup d x = lookup d k.
Proof.
  intros Hxk. induction d as [| [k0 v0] d IH]; simpl; [reflexivity |].
  rewrite (key_eqb_right k0 x k Hxk), IH. reflexivity.
Qed.

Lemma lookup_setitem (d : @Dict.dict K Z) (x : K) (v : Z) (k : K) :
  lookup (setitem d x v) k = if key_eqb x k then Some v else lookup d k.
Proof.
  induction d as [| [k0 v0] d IH]; simpl.
  - reflexivity.
  - destruct (key_eqb k0 x) eqn:H0x; simpl.
    + destruct (key_eqb x k) eqn:Hxk.
      * now rewrite (key_trans _ _ _ H0x Hxk).
      * destruct (key_eqb k0 k) eqn:H0k; [| reflexivity].
        rewrite (key_trans _ _ _ (key_sym _ _ H0x) H0k) in Hxk. discriminate.
    + rewrite IH.
      destruct (key_eqb k0 k) eqn:H0k; [| reflexivity].
      destruct (key_eqb x k) eqn:Hxk; [| reflexivity].
      rewrite (key_trans _ _ _ H0k (key_sym _ _ Hxk)) in H0x. discriminate.
Qed.

Lemma frequency_cons (k x : K) (xs : list K) :
  frequency key_eqb k (x :: xs)
  = (if key_eqb x k then 1 else 0) + frequency key_eqb k xs.
Proof.
  unfold frequency. simpl. destruct (key_eqb x k); simpl List.length; lia.
Qed.

Lemma frequency_nonneg (k : K) (xs : list K) : 0 <= frequency key_eqb k xs.
Proof. unfold frequency. lia. Qed.

Lemma frequency_of_element (k : K) (xs : list K) :
  In k xs -> 1 <= frequency key_eqb k xs.
Proof.
  induction xs as [| x xs IH]; [contradiction |].
  rewrite frequency_cons. pose proof (frequency_nonneg k xs).
  intros [-> | Hin].
  - rewrite key_refl. lia.
  - specialize (IH Hin). destruct (key_eqb x k); lia.
Qed.

(** The table holds, for every key, its frequency in the input. *)
Lemma get_count_into (xs : list K) :
  forall d k, get (count_into d xs) k 0 = get d k 0 + frequency key_eqb k xs.
Proof.
  unfold Dict.count_into.
  induction xs as [| x xs IH]; intros d k; simpl fold_left.
  - unfold frequency; simpl. lia.
  - rewrite IH, frequency_cons. unfold Dict.get at 1.
    rewrite lookup_setitem.
    destruct (key_eqb x k) eqn:Hxk.
    + unfold Dict.get. rewrite (lookup_equal_keys d x k Hxk). lia.
    + unfold Dict.get. lia.
Qed.

Lemma distinct_setitem (d : @Dict.dict K Z) (x : K) (v : Z) :
  distinct_keys key_eqb d -> distinct_keys key_eqb (setitem d x v).
Proof.
  induction d as [| [k0 v0] d IH]; simpl.
  - auto.
  - intros [Hnone Hd].
    destruct (key_eqb k0 x) eqn:H0x; simpl; [auto |].
    split; [| auto].
    rewrite lookup_setitem.
    destruct (key_eqb x k0) eqn:Hx0; [| exact Hnone].
    rewrite (key_sym _ _ Hx0) in H0x. discriminate.
Qed.

Lemma distinct_count_into (xs : list K) :
  forall d, distinct_keys key_eqb d -> distinct_keys key_eqb (count_into d xs).
Proof.
  unfold Dict.count_into.
  induction xs as [| x xs IH]; intros d Hd; simpl fold_left; auto.
  apply IH, distinct_setitem, Hd.
Qed.

Lemma lookup_entry (d : @Dict.dict K Z) (k : K) (c : Z) :
  distinct_keys key_eqb d -> In (k, c) d -> lookup d k = Some c.
Proof.
  induction d as [| [k0 v0] d IH]; simpl; [contradiction |].
  intros [Hnone Hd] [[= -> ->] | Hin].
  - now rewrite key_refl.
  - destruct (key_eqb k0 k) eqn:H0k; [| auto].
    pose proof (lookup_missing _ _ Hnone _ _ Hin) as Hk0.
    rewrite (key_sym _ _ H0k) in Hk0. discriminate.
Qed.

(** Looking up an element of the input never fails. *)
Lemma lookup_element (xs : list K) (x : K) :
  In x xs ->
  lookup (count_into [] xs) x = Some (frequency key_eqb x xs).
Proof.
  intros Hin.
  pose proof (get_count_into xs [] x) as Hget.
  pose proof (frequency_of_element x xs Hin) as Hpos.
  unfold Dict.get in Hget. simpl lookup in Hget.
  destruct (lookup (count_into [] xs) x) as [c |]; [f_equal |]; lia.
Qed.

(** Every stored count is the frequency of its key. *)
Lemma entry_frequency (xs : list K) (k : K) (c : Z) :
  In (k, c) (count_into [] xs) ->
  In k xs /\ c = frequency key_eqb k xs.
Proof.
  intros Hin.
  assert (In k xs) as Hk.
  { destruct (count_into_keys xs [] k) as [[] | H]; [| exact H].
    apply (in_map fst) in Hin. exact Hin. }
  split; [exact Hk |].
  pose proof (lookup_entry _ _ _ (distinct_count_into xs [] I) Hin) as Hl.
  rewrite (lookup_element xs k Hk) in Hl. congruence.
Qed.

(** *** The largest count *)

Lemma fold_left_max_bounds (cs : list Z) :
  forall c,
    c <= fold_left Z.max cs c
    /\ (forall x, In x cs -> x <= fold_left Z.max cs c)
    /\ (fold_left Z.max cs c = c \/ In (fold_left Z.max cs c) cs).
Proof.
  induction cs as [| y cs IH]; intros c; simpl.
  - split; [lia | split; [intros x [] | now left]].
  - destruct (IH (Z.max c y)) as (Hge & Hall & Hin).
    split; [| split].
    + lia.
    + intros x [<- | Hx]; [lia | auto].
    + destruct Hin as [Heq | Hin]; [| auto].
      rewrite Heq.
      destruct (Z.max_spec c y) as [[_ Hm] | [_ Hm]]; rewrite Hm; auto.
Qed.

Lemma max_default0_upper (cs : list Z) (c : Z) :
  In c cs -> c <= max_default0 cs.
Proof.
  destruct cs as [| c0 cs]; [contradiction |]. simpl.
  destruct (fold_left_max_bounds cs c0) as (Hge & Hall & _).
  intros [<- | Hin]; auto.
Qed.

Lemma max_default0_attained (cs : list Z) :
  cs <> [] -> In (max_default0 cs) cs.
Proof.
  destruct cs as [| c0 cs]; [congruence |]. intros _. simpl.
  destruct (fold_left_max_bounds cs c0) as (_ & _ & [-> | Hin]); auto.
Qed.

Lemma max_frequency_upper (xs : list K) (x : K) :
  In x xs -> frequency key_eqb x xs <= max_frequency key_eqb xs.
Proof.
  unfold max_frequency.
  change (frequency key_eqb x xs) with ((fun x => frequency key_eqb x xs) x).
  generalize (fun x => frequency key_eqb x xs). intros f.
  induction xs as [| y xs IH]; simpl; [contradiction |].
  intros [<- | Hin]; [lia |]. specialize (IH Hin). lia.
Qed.

Lemma max_frequency_attained (xs : list K) :
  xs <> [] ->
  exists x, In x xs /\ frequency key_eqb x xs = max_frequency key_eqb xs.
Proof.
  intros Hne.
  assert (forall ys, (forall y, In y ys -> 1 <= frequency key_eqb y xs) ->
                     ys <> [] ->
                     exists x, In x ys
                               /\ frequency key_eqb x xs
                                  = fold_right Z.max 0
                                      (map (fun x => frequency key_eqb x xs) ys))
    as Hgen.
  { induction ys as [| y ys IH]; intros Hpos Hys; [congruence |]. simpl.
    destruct ys as [| y' ys'].
    - exists y. split; [now left |]. simpl.
      specialize (Hpos y (or_introl eq_refl)). lia.
    - destruct IH as (x & Hx & Hmax); [intros; apply Hpos; now right | discriminate |].
      destruct (Z.max_spec (frequency key_eqb y xs)
                  (fold_right Z.max 0
                     (map (fun x => frequency key_eqb x xs) (y' :: ys'))))
        as [[_ Hm] | [_ Hm]]; rewrite Hm.
      + exists x. split; [now right | exact Hmax].
      + exists y. split; [now left | reflexivity]. }
  apply Hgen; [intros y; apply frequency_of_element | exact Hne].
Qed.

(** The largest stored count is the largest frequency in the input. *)
Lemma max_count_is_max_frequency (xs : list K) :
  max_default0 (Dict.values (count_into [] xs)) = max_frequency key_eqb xs.
Proof.
  destruct xs as [| x0 xs'] eqn:Hxs; [reflexivity |]. rewrite <- Hxs.
  assert (xs <> []) as Hne by (rewrite Hxs; discriminate).
  apply Z.le_antisymm.
  - assert (Dict.values (count_into [] xs) <> []) as Hvals.
    { intros Hnil. apply map_eq_nil in Hnil.
      now apply (count_into_not_empty xs []) in Hnil. }
    apply max_default0_attained, in_map_iff in Hvals.
    destruct Hvals as ([k c] & Hc & Hin).
    simpl in Hc. rewrite <- Hc.
    destruct (entry_frequency xs k c Hin) as [Hk ->].
    now apply max_frequency_upper.
  - destruct (max_frequency_attained xs Hne) as (x & Hx & <-).
    apply max_default0_upper.
    pose proof (lookup_element xs x Hx) as Hl.
    destruct (lookup_found _ _ _ Hl) as (k' & Hin & _).
    unfold Dict.values. apply in_map_iff. exists (k', frequency key_eqb x xs).
    split; [reflexivity | exact Hin].
Qed.

End CountInto.

(** ** Binary64 comparison and rounding

    Facts about the primitive floats, obtained from their
    specification [Prim2SF]. *)

Lemma SFcompare_antisym (x y : spec_float) :
  SFcompare y x = option_map CompOpp (SFcompare x y).
Proof.
  destruct x as [sx | sx | | sx mx ex], y as [sy | sy | | sy my ey];
    try destruct sx; try destruct sy; try reflexivity.
  all: simpl; rewrite (Z.compare_antisym ey ex);
    destruct (ey ?= ex); simpl; try reflexivity.
  all: rewrite (Pos.compare_cont_antisym _ _ Eq); simpl;
    try rewrite CompOpp_involutive; reflexivity.
Qed.

Lemma SFcompare_none (x y : spec_float) :
  SFcompare x y = None <-> x = S754_nan \/ y = S754_nan.
Proof.
  split.
  - destruct x as [sx | sx | | sx mx ex], y as [sy | sy | | sy my ey]; simpl;
      auto; try discriminate;
      try destruct sx; try destruct sy; discriminate.
  - intros [-> | ->]; [reflexivity | destruct x; reflexivity].
Qed.

Lemma SFcompare_eq (x y : spec_float) :
  SFcompare x y = Some Eq <->
  x <> S754_nan /\ (x = y \/ (sf_is_zero x /\ sf_is_zero y)).
Proof.
  split.
  - destruct x as [sx | sx | | sx mx ex], y as [sy | sy | | sy my ey]; simpl;
      try discriminate;
      try (destruct sx; discriminate); try (destruct sy; discriminate).
    + intros _. split; [discriminate | auto].
    + destruct sx, sy; try discriminate; intros _; split; auto; discriminate.
    + destruct sx, sy; try discriminate;
        destruct (ex ?= ey) eqn:He; try discriminate;
        apply Z.compare_eq in He; subst ey; intros [= Hm];
        (split; [discriminate | left; f_equal]).
      * destruct (Pos.compare_cont Eq mx my) eqn:Hc; try discriminate.
        now apply Pos.compare_eq in Hc.
      * now apply Pos.compare_eq in Hm.
  - intros [Hn [<- | [Hx Hy]]].
    + destruct x as [sx | sx | | sx mx ex]; simpl; try congruence.
      * destruct sx; reflexivity.
      * destruct sx; rewrite Z.compare_refl, Pos.compare_cont_refl; reflexivity.
    + destruct x, y; simpl in *; try contradiction. reflexivity.
Qed.

Lemma SFleb_trans (x y z : spec_float) :
  SFleb x y = true -> SFleb y z = true -> SFleb x z = true.
Proof.
  unfold SFleb.
  destruct x as [sx | sx | | sx mx ex], y as [sy | sy | | sy my ey],
           z as [sz | sz | | sz mz ez]; simpl;
    try discriminate; try reflexivity;
    try destruct sx; try destruct sy; try destruct sz;
    try discriminate; try reflexivity.
  all: change (Pos.compare_cont Eq) with Pos.compare.
  all: repeat match goal with
      | |- context [Z.compare ?a ?b] => destruct (Z.compare_spec a b)
      | |- context [Pos.compare ?a ?b] => destruct (Pos.compare_spec a b)
      end; simpl; try discriminate; try reflexivity; intros; exfalso; subst; lia.
Qed.

Section Rounding.

Variables prec emax : Z.

Lemma shr_1_nonneg (mrs : shr_record) : 0 <= shr_m mrs -> 0 <= shr_m (shr_1 mrs).
Proof.
  destruct mrs as [m r s]. simpl.
  destruct m as [| [p | p |] | [p | p |]]; simpl; lia.
Qed.

Lemma iter_pos_invariant {A : Type} (P : A -> Prop) (f : A -> A) :
  (forall a, P a -> P (f a)) ->
  forall n a, P a -> P (iter_pos f n a).
Proof.
  intros Hf. induction n as [n IH | n IH |]; intros a Ha; simpl; auto.
Qed.

Lemma shr_fexp_nonneg (m e : Z) (l : location) :
  0 <= m -> 0 <= shr_m (fst (shr_fexp prec emax m e l)).
Proof.
  intros Hm. unfold shr_fexp, shr.
  assert (0 <= shr_m (shr_record_of_loc m l)) as H0
    by (destruct l as [| []]; exact Hm).
  destruct (fexp prec emax (Zdigits2 m + e) - e); simpl; auto.
  apply (iter_pos_invariant (fun mrs => 0 <= shr_m mrs)); auto using shr_1_nonneg.
Qed.

Lemma round_nearest_even_nonneg (m : Z) (l : location) :
  0 <= m -> 0 <= round_nearest_even m l.
Proof.
  intros Hm. destruct l as [| []]; simpl; try lia.
  destruct (Z.even m); lia.
Qed.

Lemma binary_round_aux_not_nan (sx : bool) (mx ex : Z) (lx : location) :
  0 <= mx -> binary_round_aux prec emax sx mx ex lx <> S754_nan.
Proof.
  intros Hm. unfold binary_round_aux.
  pose proof (shr_fexp_nonneg mx ex lx Hm) as H1.
  destruct (shr_fexp prec emax mx ex lx) as [mrs' e']. simpl in H1.
  pose proof (shr_fexp_nonneg _ e' loc_Exact
                (round_nearest_even_nonneg _ (loc_of_shr_record mrs') H1)) as H2.
  destruct (shr_fexp prec emax (round_nearest_even (shr_m mrs') (loc_of_shr_record mrs')) e' loc_Exact)
    as [mrs'' e'']. simpl in H2.
  destruct (shr_m mrs''); try discriminate; [| lia].
  destruct (e'' <=? emax - prec); discriminate.
Qed.

Lemma binary_normalize_not_nan (m e : Z) (s : bool) :
  binary_normalize prec emax m e s <> S754_nan.
Proof.
  destruct m; simpl; try discriminate; unfold binary_round;
    destruct (shl_align _ _ _); apply binary_round_aux_not_nan; lia.
Qed.

Lemma SFadd_not_nan (x y : spec_float) :
  sf_finite x -> sf_finite y -> SFadd prec emax x y <> S754_nan.
Proof.
  destruct x as [sx | sx | | sx mx ex], y as [sy | sy | | sy my ey]; simpl;
    try contradiction; intros _ _; try discriminate.
  - destruct sx, sy; discriminate.
  - apply binary_normalize_not_nan.
Qed.

Lemma SFdiv_not_nan (x : spec_float) (sy : bool) (my : positive) (ey : Z) :
  x <> S754_nan -> SFdiv prec emax x (S754_finite sy my ey) <> S754_nan.
Proof.
  destruct x as [sx | sx | | sx mx ex]; simpl; try discriminate; [congruence |].
  intros _. unfold SFdiv_core_binary.
  set (m' := match _ with Z0 => Z.pos mx | Zpos _ => _ | Zneg _ => 0 end).
  assert (0 <= m') as Hm'.
  { subst m'. destruct (_ - _ - _); try lia. apply Z.shiftl_nonneg. lia. }
  pose proof (Z.div_eucl_eq m' (Z.pos my) ltac:(lia)) as Heq.
  pose proof (Z.mod_pos_bound m' (Z.pos my) ltac:(lia)) as Hmod.
  unfold Z.modulo in Hmod.
  destruct (Z.div_eucl m' (Z.pos my)) as [q r].
  apply binary_round_aux_not_nan. nia.
Qed.

End Rounding.

Lemma SFcompare_same_l (x x' y : spec_float) :
  sf_same x x' -> SFcompare x y = SFcompare x' y.
Proof.
  intros [-> | [Hx Hx']]; [reflexivity |].
  destruct x, x'; try contradiction. destruct y; reflexivity.
Qed.

Lemma SFadd_same (prec emax : Z) (x x' y y' : spec_float) :
  sf_same x x' -> sf_same y y' ->
  sf_same (SFadd prec emax x y) (SFadd prec emax x' y').
Proof.
  intros [-> | [Hx Hx']] [-> | [Hy Hy']]; try (left; reflexivity).
  - destruct y, y'; try contradiction.
    destruct x' as [sx | sx | | sx mx ex]; simpl; try (left; reflexivity).
    right. destruct sx, s, s0; simpl; auto.
  - destruct x, x'; try contradiction.
    destruct y' as [sy | sy | | sy my ey]; simpl; try (left; reflexivity).
    right. destruct sy, s, s0; simpl; auto.
  - destruct x, x', y, y'; try contradiction.
    right. destruct s, s0, s1, s2; simpl; auto.
Qed.

Lemma SFdiv_same (prec emax : Z) (x x' : spec_float) sy my ey :
  sf_same x x' ->
  sf_same (SFdiv prec emax x (S754_finite sy my ey))
          (SFdiv prec emax x' (S754_finite sy my ey)).
Proof.
  intros [-> | [Hx Hx']]; [left; reflexivity |].
  destruct x, x'; try contradiction. right. simpl. auto.
Qed.

Local Open Scope float_scope.

Lemma SFeqb_true (x y : spec_float) :
  SFeqb x y = true <-> x <> S754_nan /\ sf_same x y.
Proof.
  unfold SFeqb, sf_same. rewrite <- SFcompare_eq.
  destruct (SFcompare x y) as [[| |] |]; split; congruence.
Qed.

Lemma is_nan_false (x : float) :
  is_nan x = false <-> Prim2SF x <> S754_nan.
Proof.
  unfold is_nan. rewrite FloatAxioms.eqb_spec, negb_false_iff, SFeqb_true.
  split; [intros [H _]; exact H | intros H; split; [exact H | left; reflexivity]].
Qed.

Lemma float_eqb_true (x y : float) :
  (x =? y) = true <->
  Prim2SF x <> S754_nan /\ sf_same (Prim2SF x) (Prim2SF y).
Proof. rewrite FloatAxioms.eqb_spec. apply SFeqb_true. Qed.

Lemma sf_same_sym x y : sf_same x y -> sf_same y x.
Proof. intros [-> | [? ?]]; [left | right]; auto. Qed.

Lemma sf_same_trans x y z : sf_same x y -> sf_same y z -> sf_same x z.
Proof.
  intros [-> | [Hx Hy]] [<- | [Hy' Hz]]; unfold sf_same; auto.
Qed.

Lemma sf_same_nan x y : sf_same x y -> x <> S754_nan -> y <> S754_nan.
Proof. intros [-> | [Hx Hy]]; auto. destruct y; try contradiction. discriminate. Qed.

Lemma float_eqb_refl (x : float) : is_nan x = false -> (x =? x) = true.
Proof. unfold is_nan. now rewrite negb_false_iff. Qed.

Lemma float_eqb_sym (x y : float) : (x =? y) = true -> (y =? x) = true.
Proof.
  rewrite !float_eqb_true. intros [Hn Hs].
  split; [eapply sf_same_nan; eauto | now apply sf_same_sym].
Qed.

Lemma float_eqb_trans (x y z : float) :
  (x =? y) = true -> (y =? z) = true -> (x =? z) = true.
Proof.
  rewrite !float_eqb_true. intros [Hn Hs] [Hn' Hs'].
  split; [exact Hn | eapply sf_same_trans; eauto].
Qed.

Lemma float_eqb_not_nan (x y : float) :
  (x =? y) = true -> is_nan x = false /\ is_nan y = false.
Proof.
  rewrite float_eqb_true, !is_nan_false. intros [Hn Hs].
  split; [exact Hn | eapply sf_same_nan; eauto].
Qed.

Lemma float_ltb_eqb_l (x x' y : float) :
  (x =? x') = true -> (x <? y) = (x' <? y).
Proof.
  rewrite float_eqb_true, !FloatAxioms.ltb_spec. intros [_ Hs]. unfold SFltb.
  now rewrite (SFcompare_same_l _ _ _ Hs).
Qed.

Lemma float_ltb_asym (x y : float) : (x <? y) = true -> (y <? x) = false.
Proof.
  rewrite !FloatAxioms.ltb_spec. unfold SFltb.
  rewrite (SFcompare_antisym (Prim2SF x) (Prim2SF y)).
  destruct (SFcompare (Prim2SF x) (Prim2SF y)) as [[| |] |]; simpl; congruence.
Qed.

Lemma float_ltb_leb (x y : float) : (x <? y) = true -> (x <=? y) = true.
Proof.
  rewrite FloatAxioms.ltb_spec, FloatAxioms.leb_spec. unfold SFltb, SFleb.
  destruct (SFcompare (Prim2SF x) (Prim2SF y)) as [[| |] |]; simpl; congruence.
Qed.

Lemma float_not_ltb (x y : float) :
  is_nan x = false -> is_nan y = false ->
  (x <? y) = false <-> (y <=? x) = true.
Proof.
  rewrite !is_nan_false, FloatAxioms.ltb_spec, FloatAxioms.leb_spec. unfold SFltb, SFleb. intros Hx Hy.
  rewrite (SFcompare_antisym (Prim2SF x) (Prim2SF y)).
  destruct (SFcompare (Prim2SF x) (Prim2SF y)) as [[| |] |] eqn:Hc; simpl;
    try (split; congruence).
  apply SFcompare_none in Hc. tauto.
Qed.

Lemma float_leb_trans (x y z : float) :
  (x <=? y) = true -> (y <=? z) = true -> (x <=? z) = true.
Proof. rewrite !FloatAxioms.leb_spec. apply SFleb_trans. Qed.

Lemma float_leb_antisym (x y : float) :
  (x <=? y) = true -> (y <=? x) = true -> (x =? y) = true.
Proof.
  rewrite !FloatAxioms.leb_spec, FloatAxioms.eqb_spec. unfold SFleb, SFeqb.
  rewrite (SFcompare_antisym (Prim2SF x) (Prim2SF y)).
  destruct (SFcompare (Prim2SF x) (Prim2SF y)) as [[| |] |]; simpl; congruence.
Qed.

Lemma float_leb_not_nan (x y : float) :
  (x <=? y) = true -> is_nan x = false /\ is_nan y = false.
Proof.
  rewrite FloatAxioms.leb_spec, !is_nan_false. unfold SFleb.
  destruct (SFcompare (Prim2SF x) (Prim2SF y)) as [c |] eqn:Hc; [| discriminate].
  intros _. split; intros Hn;
    assert (SFcompare (Prim2SF x) (Prim2SF y) = None) as H
      by (apply SFcompare_none; auto); congruence.
Qed.

Lemma is_finite_spec (x : float) :
  is_finite x = true -> sf_finite (Prim2SF x).
Proof.
  unfold is_finite. rewrite negb_true_iff, orb_false_iff. intros [Hn Hi].
  apply is_nan_false in Hn.
  destruct (Prim2SF x) as [s | s | | s m e] eqn:Hx; simpl; auto.
  unfold is_infinity in Hi. rewrite FloatAxioms.eqb_spec, FloatAxioms.abs_spec, Hx in Hi.
  discriminate Hi.
Qed.

Lemma median_of_two_same (a a' b b' : float) :
  is_finite a = true -> is_finite b = true ->
  (a =? a') = true -> (b =? b') = true ->
  ((a + b) / 2 =? (a' + b') / 2) = true.
Proof.
  intros Ha Hb Haa Hbb.
  apply float_eqb_true in Haa, Hbb. destruct Haa as [_ Haa], Hbb as [_ Hbb].
  apply float_eqb_true.
  rewrite !FloatAxioms.div_spec, !FloatAxioms.add_spec.
  change (Prim2SF 2) with (S754_finite false 4503599627370496 (-51)).
  split.
  - apply SFdiv_not_nan, SFadd_not_nan; now apply is_finite_spec.
  - apply SFdiv_same, SFadd_same; assumption.
Qed.

Lemma is_finite_not_nan (x : float) : is_finite x = true -> is_nan x = false.
Proof.
  unfold is_finite. rewrite negb_true_iff, orb_false_iff. now intros [H _].
Qed.

Lemma float_ltb_not_nan (x y : float) :
  (x <? y) = true -> is_nan x = false /\ is_nan y = false.
Proof. intros H. now apply float_leb_not_nan, float_ltb_leb. Qed.

(** [<] is negatively transitive where it is defined. *)
Lemma float_ltb_between (x y z : float) :
  is_nan y = false ->
  (x <? z) = true -> (x <? y) = true \/ (y <? z) = true.
Proof.
  intros Hy Hxz.
  destruct (float_ltb_not_nan _ _ Hxz) as [Hx Hz].
  destruct (x <? y) eqn:Hxy; [now left |].
  destruct (y <? z) eqn:Hyz; [now right |].
  apply float_not_ltb in Hxy, Hyz; try assumption.
  pose proof (float_leb_trans _ _ _ Hyz Hxy) as Hzx.
  apply float_not_ltb in Hzx; try assumption. congruence.
Qed.

Lemma float_incomparable (x y : float) :
  is_nan x = false -> is_nan y = false ->
  (x <? y) = false -> (y <? x) = false -> (x =? y) = true.
Proof.
  intros Hx Hy Hxy Hyx.
  apply float_not_ltb in Hxy, Hyx; try assumption.
  now apply float_leb_antisym.
Qed.

Local Close Scope float_scope.

(** ** Sorting and the median *)

Lemma insert_sorted_perm (x : float) (l : list float) :
  Permutation (insert_sorted x l) (x :: l).
Proof.
  induction l as [| y l IH]; simpl.
  - apply Permutation_refl.
  - destruct (PrimFloat.ltb y x).
    + eapply perm_trans; [apply perm_skip, IH | apply perm_swap].
    + apply Permutation_refl.
Qed.

Lemma sorted_perm (l : list float) : Permutation (sorted l) l.
Proof.
  induction l as [| x l IH]; simpl.
  - apply perm_nil.
  - eapply perm_trans; [apply insert_sorted_perm | apply perm_skip, IH].
Qed.

Lemma sorted_length (l : list float) : List.length (sorted l) = List.length l.
Proof. apply Permutation_length, sorted_perm. Qed.

Lemma insert_sorted_ascending (x : float) (l : list float) :
  not_nan x -> Forall not_nan l ->
  StronglySorted float_le l -> StronglySorted float_le (insert_sorted x l).
Proof.
  intros Hx. induction l as [| y l IH]; simpl; intros Hl Hs.
  - repeat constructor.
  - inversion Hl as [| ? ? Hy Hl']; subst.
    apply StronglySorted_inv in Hs. destruct Hs as [Hs Hall].
    destruct (PrimFloat.ltb y x) eqn:Hyx.
    + constructor; [auto |].
      eapply Permutation_Forall; [apply Permutation_sym, insert_sorted_perm |].
      constructor; [apply float_ltb_leb, Hyx | exact Hall].
    + apply (float_not_ltb y x Hy Hx) in Hyx.
      constructor; [constructor; assumption |].
      constructor; [exact Hyx |].
      eapply Forall_impl; [| exact Hall].
      intros z Hz. eapply float_leb_trans; eassumption.
Qed.

Lemma sorted_not_nan (l : list float) :
  Forall not_nan l -> Forall not_nan (sorted l).
Proof.
  intros H. eapply Permutation_Forall; [apply Permutation_sym, sorted_perm | exact H].
Qed.

Lemma sorted_ascending (l : list float) :
  Forall not_nan l -> StronglySorted float_le (sorted l).
Proof.
  induction l as [| x l IH]; simpl; intros Hl.
  - constructor.
  - inversion Hl; subst.
    apply insert_sorted_ascending; auto using sorted_not_nan.
Qed.

Lemma float_eq_refl_list (l : list float) :
  Forall not_nan l -> Forall2 float_eq l l.
Proof.
  induction 1 as [| x l Hx Hl IH]; constructor; auto.
  apply float_eqb_refl, Hx.
Qed.

Lemma insert_sorted_not_nan (x : float) (l : list float) :
  not_nan x -> Forall not_nan l -> Forall not_nan (insert_sorted x l).
Proof.
  intros Hx Hl.
  eapply Permutation_Forall; [apply Permutation_sym, insert_sorted_perm |].
  constructor; assumption.
Qed.

(** Inserting into equal lists gives equal lists. *)
Lemma insert_sorted_equal (x : float) (l l' : list float) :
  not_nan x -> Forall2 float_eq l l' ->
  Forall2 float_eq (insert_sorted x l) (insert_sorted x l').
Proof.
  intros Hx. induction 1 as [| y y' l l' Hy Hl IH]; simpl.
  - constructor; [apply float_eqb_refl, Hx | constructor].
  - rewrite <- (float_ltb_eqb_l y y' x Hy).
    destruct (PrimFloat.ltb y x).
    + constructor; assumption.
    + constructor; [apply float_eqb_refl, Hx |]. constructor; assumption.
Qed.

(** Two insertions commute, up to the order of two equal floats. *)
Lemma insert_sorted_swap (x y : float) (l : list float) :
  not_nan x -> not_nan y -> Forall not_nan l ->
  Forall2 float_eq (insert_sorted x (insert_sorted y l))
                   (insert_sorted y (insert_sorted x l)).
Proof.
  intros Hx Hy. induction l as [| z l IH]; intros Hl.
  - simpl.
    destruct (PrimFloat.ltb y x) eqn:Hyx, (PrimFloat.ltb x y) eqn:Hxy.
    + rewrite (float_ltb_asym _ _ Hyx) in Hxy. discriminate.
    + apply float_eq_refl_list. repeat constructor; assumption.
    + apply float_eq_refl_list. repeat constructor; assumption.
    + pose proof (float_incomparable x y Hx Hy Hxy Hyx) as Heq.
      repeat constructor; [exact Heq | apply float_eqb_sym, Heq].
  - inversion Hl as [| ? ? Hz Hl']; subst.
    cbn [insert_sorted].
    destruct (PrimFloat.ltb z x) eqn:Hzx, (PrimFloat.ltb z y) eqn:Hzy;
      cbn [insert_sorted]; rewrite ?Hzx, ?Hzy.
    + constructor; [apply float_eqb_refl, Hz | apply IH, Hl'].
    + destruct (float_ltb_between z y x Hy Hzx) as [H | H]; [congruence |].
      rewrite H. cbn [insert_sorted]. rewrite ?Hzx, ?Hzy.
      apply float_eq_refl_list.
      constructor; [exact Hy |]. constructor; [exact Hz |].
      now apply insert_sorted_not_nan.
    + destruct (float_ltb_between z x y Hx Hzy) as [H | H]; [congruence |].
      rewrite H. cbn [insert_sorted]. rewrite ?Hzx, ?Hzy.
      apply float_eq_refl_list.
      constructor; [exact Hx |]. constructor; [exact Hz |].
      now apply insert_sorted_not_nan.
    + assert (Forall not_nan (z :: l)) as Hzl by (constructor; assumption).
      destruct (PrimFloat.ltb y x) eqn:Hyx, (PrimFloat.ltb x y) eqn:Hxy;
        cbn [insert_sorted]; rewrite ?Hzx, ?Hzy.
      * rewrite (float_ltb_asym _ _ Hyx) in Hxy. discriminate.
      * apply float_eq_refl_list. repeat (constructor; [assumption |]). exact Hl'.
      * apply float_eq_refl_list. repeat (constructor; [assumption |]). exact Hl'.
      * pose proof (float_incomparable x y Hx Hy Hxy Hyx) as Heq.
        constructor; [exact Heq |].
        constructor; [apply float_eqb_sym, Heq |].
        apply float_eq_refl_list, Hzl.
Qed.

Lemma float_eq_trans_list (l1 l2 l3 : list float) :
  Forall2 float_eq l1 l2 -> Forall2 float_eq l2 l3 -> Forall2 float_eq l1 l3.
Proof.
  intros H. revert l3.
  induction H as [| x y l1 l2 Hxy H12 IH]; intros l3 H23; inversion H23; subst.
  - constructor.
  - constructor; [eapply float_eqb_trans; eassumption | auto].
Qed.

(** Sorting a permutation of a list gives the same floats in the same
    places, up to [==]. *)
Lemma sorted_permutation (l l' : list float) :
  Permutation l l' -> Forall not_nan l ->
  Forall2 float_eq (sorted l) (sorted l').
Proof.
  induction 1 as [| x l l' Hp IH | x y l | l1 l2 l3 H12 IH12 H23 IH23];
    intros Hl.
  - constructor.
  - inversion Hl; subst. simpl. apply insert_sorted_equal; auto.
  - inversion Hl as [| ? ? Hy Hl']; subst.
    inversion Hl' as [| ? ? Hx Hl'']; subst.
    simpl. apply insert_sorted_swap; auto using sorted_not_nan.
  - eapply float_eq_trans_list; [apply IH12, Hl |].
    apply IH23. eapply Permutation_Forall; eassumption.
Qed.

Lemma list_getitem_in_range {A : Type} (l : list A) (i : Z) :
  0 <= i < Z.of_nat (List.length l) ->
  exists a, nth_error l (Z.to_nat i) = Some a /\ list_getitem l i = Returns a.
Proof.
  intros Hi. unfold list_getitem. cbv zeta.
  assert ((i <? 0) = false) as Hneg by (apply Z.ltb_ge; lia).
  assert ((Z.of_nat (List.length l) <=? i) = false) as Hlt
    by (apply Z.leb_gt; lia).
  rewrite Hneg. cbv iota. rewrite Hneg, Hlt. simpl orb. cbv iota.
  destruct (nth_error l (Z.to_nat i)) as [a |] eqn:Hnth.
  - exists a. split; reflexivity.
  - apply nth_error_None in Hnth. lia.
Qed.

Lemma Forall2_nth_error {A : Type} (R : A -> A -> Prop) (l l' : list A) :
  Forall2 R l l' ->
  forall n a, nth_error l n = Some a ->
              exists a', nth_error l' n = Some a' /\ R a a'.
Proof.
  induction 1 as [| x y l l' Hxy Hl IH]; intros [| n] a; simpl; try discriminate.
  - intros [= <-]. exists y; auto.
  - apply IH.
Qed.

(** What [median] returns on a non-empty list, by the parity of its
    length. *)
Lemma median_middle (values : list float) :
  values <> [] ->
  let s := sorted values in
  let n := Z.of_nat (List.length values) in
  (n mod 2 = 1 ->
   exists x, nth_error s (Z.to_nat (n / 2)) = Some x
             /\ median values = Returns x)
  /\ (n mod 2 = 0 ->
      exists a b, nth_error s (Z.to_nat (n / 2 - 1)) = Some a
                  /\ nth_error s (Z.to_nat (n / 2)) = Some b
                  /\ median values
                     = Returns (PrimFloat.div (PrimFloat.add a b) 2%float)).
Proof.
  intros Hne s n.
  assert (1 <= n) as Hn.
  { subst n. destruct values; [congruence | simpl List.length; lia]. }
  assert (Z.of_nat (List.length s) = n) as Hlen
    by (subst s n; now rewrite sorted_length).
  pose proof (Z.div_mod n 2 ltac:(lia)) as Hdm.
  split; intros Hpar.
  - destruct (list_getitem_in_range s (n / 2) ltac:(lia)) as (x & Hnth & Hget).
    exists x. split; [exact Hnth |].
    unfold median. fold s. rewrite Hlen, Hpar. simpl Z.eqb. cbv iota.
    exact Hget.
  - destruct (list_getitem_in_range s (n / 2 - 1) ltac:(lia)) as (a & Ha & Hga).
    destruct (list_getitem_in_range s (n / 2) ltac:(lia)) as (b & Hb & Hgb).
    exists a, b. split; [exact Ha | split; [exact Hb |]].
    unfold median. fold s. rewrite Hlen, Hpar. simpl Z.eqb. cbv iota.
    rewrite Hga, Hgb. reflexivity.
Qed.

(** Floats that compare equal are the same float, or two zeros. *)
Lemma float_eq_up_to_zero_sign (m m' : float) :
  float_eq m m' ->
  float_eq m m'
  /\ (m = m' \/ (PrimFloat.is_zero m = true /\ PrimFloat.is_zero m' = true)).
Proof.
  intros Heq. split; [exact Heq |].
  apply float_eqb_true in Heq. destruct Heq as [_ [Hsame | [Hz Hz']]].
  - left. now apply FloatAxioms.Prim2SF_inj.
  - right. unfold PrimFloat.is_zero. rewrite !FloatAxioms.eqb_spec.
    change (Prim2SF PrimFloat.zero) with (S754_zero false).
    destruct (Prim2SF m), (Prim2SF m'); try contradiction. split; reflexivity.
Qed.

(** C8, with the two zeros told apart. On a non-empty list of finite
    floats, [median] is the middle element of the ascending-sorted list
    when the length is odd and the mean of the two middle elements when
    it is even; the medians of the list and of any permutation of it
    compare equal under [==], and are the same float unless both are
    zeros, whose sign can depend on the input order. *)
Theorem median_sorted_middle (values : list float) :
  values <> [] ->
  Forall (fun x => PrimFloat.is_finite x = true) values ->
  let s := sorted values in
  let n := Z.of_nat (List.length values) in
  Permutation s values
  /\ StronglySorted float_le s
  /\ (n mod 2 = 1 ->
      exists x, nth_error s (Z.to_nat (n / 2)) = Some x
                /\ median values = Returns x)
  /\ (n mod 2 = 0 ->
      exists a b, nth_error s (Z.to_nat (n / 2 - 1)) = Some a
                  /\ nth_error s (Z.to_nat (n / 2)) = Some b
                  /\ median values
                     = Returns (PrimFloat.div (PrimFloat.add a b) 2%float))
  /\ (forall values',
        Permutation values values' ->
        exists m m', median values = Returns m
                     /\ median values' = Returns m'
                     /\ float_eq m m'
                     /\ (m = m'
                         \/ (PrimFloat.is_zero m = true
                             /\ PrimFloat.is_zero m' = true))).
Proof.
  intros Hne Hfin s n.
  assert (Forall not_nan values) as Hnn
    by (eapply Forall_impl; [| exact Hfin]; intros x; apply is_finite_not_nan).
  destruct (median_middle values Hne) as [Hodd Heven]. fold s n in Hodd, Heven.
  split; [apply sorted_perm |].
  split; [apply sorted_ascending, Hnn |].
  split; [exact Hodd |]. split; [exact Heven |].
  intros values' Hperm.
  assert (values' <> []) as Hne'.
  { intros ->. apply Permutation_sym, Permutation_nil in Hperm. congruence. }
  destruct (median_middle values' Hne') as [Hodd' Heven'].
  rewrite <- (Permutation_length Hperm) in Hodd', Heven'. fold n in Hodd', Heven'.
  pose proof (sorted_permutation values values' Hperm Hnn) as Hsame. fold s in Hsame.
  assert (Forall (fun x => PrimFloat.is_finite x = true) s) as Hfs.
  { eapply Permutation_Forall; [apply Permutation_sym, sorted_perm | exact Hfin]. }
  rewrite Forall_forall in Hfs.
  assert (n mod 2 = 1 \/ n mod 2 = 0) as [Hpar | Hpar]
    by (pose proof (Z.mod_pos_bound n 2 ltac:(lia)); lia).
  - destruct (Hodd Hpar) as (x & Hx & Hm).
    destruct (Hodd' Hpar) as (x' & Hx' & Hm').
    exists x, x'. split; [exact Hm | split; [exact Hm' |]].
    apply float_eq_up_to_zero_sign.
    destruct (Forall2_nth_error _ _ _ Hsame _ _ Hx) as (y & Hy & Hxy).
    congruence.
  - destruct (Heven Hpar) as (a & b & Ha & Hb & Hm).
    destruct (Heven' Hpar) as (a' & b' & Ha' & Hb' & Hm').
    eexists _, _. split; [exact Hm | split; [exact Hm' |]].
    apply float_eq_up_to_zero_sign.
    destruct (Forall2_nth_error _ _ _ Hsame _ _ Ha) as (a2 & Ha2 & Haa).
    destruct (Forall2_nth_error _ _ _ Hsame _ _ Hb) as (b2 & Hb2 & Hbb).
    assert (a2 = a') by congruence. assert (b2 = b') by congruence. subst a2 b2.
    apply median_of_two_same; auto.
    + apply Hfs. eapply nth_error_In, Ha.
    + apply Hfs. eapply nth_error_In, Hb.
Qed.

Lemma median_sorted_middle_witness :
  [0; -0; 5]%float <> []
  /\ Forall (fun x => PrimFloat.is_finite x = true) [0; -0; 5]%float
  /\ median [3; 1; 2]%float = Returns 2%float
  /\ median [4; 1; 3; 2]%float = Returns 2.5%float
  /\ exists m m', median [0; -0; 5]%float = Returns m
                  /\ median [-0; 0; 5]%float = Returns m'
                  /\ float_eq m m'
                  /\ (m = m'
                      \/ (PrimFloat.is_zero m = true
                          /\ PrimFloat.is_zero m' = true)).
Proof.
  assert ([0; -0; 5]%float <> []) as Hne by discriminate.
  assert (Forall (fun x => PrimFloat.is_finite x = true) [0; -0; 5]%float) as Hfin
    by (repeat constructor).
  destruct (median_sorted_middle _ Hne Hfin) as (_ & _ & _ & _ & Hperm).
  split; [exact Hne | split; [exact Hfin |]].
  split; [reflexivity | split; [reflexivity |]].
  apply (Hperm [-0; 0; 5]%float). apply perm_swap.
Defined.

(** The float reported as the median can be a zero of either sign,
    depending on the order of the input; the two zeros are equal
    floats. *)
Remark median_zero_sign :
  median [0; -0; 5]%float = Returns (-0)%float
  /\ median [-0; 0; 5]%float = Returns 0%float
  /\ float_eq (-0)%float 0%float.
Proof. repeat split; reflexivity. Qed.

(** Against the order independence of C8 read as identity of the
    result: a list of finite floats and a permutation of it whose
    medians are different floats, [-0.0] and [0.0]. *)
Lemma median_depends_on_input_order :
  Permutation [0; -0; 5]%float [-0; 0; 5]%float
  /\ Forall (fun x => PrimFloat.is_finite x = true) [0; -0; 5]%float
  /\ median [0; -0; 5]%float <> median [-0; 0; 5]%float.
Proof.
  split; [apply perm_swap |]. split; [repeat constructor |].
  intros Heq.
  assert (PrimFloat.Leibniz.eqb (-0)%float 0%float = true) as Hsame.
  { apply FloatAxioms.Leibniz.eqb_spec.
    change (median [0; -0; 5]%float) with (Returns (-0)%float) in Heq.
    change (median [-0; 0; 5]%float) with (Returns 0%float) in Heq.
    exact (f_equal (fun o => match o with Returns x => x | _ => 0%float end)
                   Heq). }
  vm_compute in Hsame. discriminate Hsame.
Qed.

(** ** Mode *)

Lemma is_same_object (a b : pyfloat) : is_ a b = true <-> a = b.
Proof.
  unfold is_. rewrite andb_true_iff, Nat.eqb_eq, FloatAxioms.Leibniz.eqb_spec.
  destruct a, b; simpl. split; [intros [-> ->]; reflexivity | intros [= -> ->]; auto].
Qed.

Lemma float_key_refl (a : pyfloat) : float_key_eqb a a = true.
Proof.
  unfold float_key_eqb. apply orb_true_iff. left. now apply is_same_object.
Qed.

Lemma float_key_sym (a b : pyfloat) :
  float_key_eqb a b = true -> float_key_eqb b a = true.
Proof.
  unfold float_key_eqb. rewrite !orb_true_iff, !is_same_object.
  intros [-> | H]; [now left | right; now apply float_eqb_sym].
Qed.

Lemma float_key_trans (a b c : pyfloat) :
  float_key_eqb a b = true -> float_key_eqb b c = true ->
  float_key_eqb a c = true.
Proof.
  unfold float_key_eqb. rewrite !orb_true_iff, !is_same_object.
  intros [-> | Hab] [<- | Hbc]; auto.
  right. eapply float_eqb_trans; eassumption.
Qed.

Lemma find_first {A : Type} (p : A -> bool) (l : list A) (v : A) :
  find p l = Some v ->
  exists before after,
    l = before ++ v :: after /\ p v = true
    /\ forall u, In u before -> p u = false.
Proof.
  induction l as [| x l IH]; simpl; [discriminate |].
  destruct (p x) eqn:Hx.
  - intros [= <-]. exists [], l. repeat split; auto. contradiction.
  - intros H. destruct (IH H) as (before & after & -> & Hv & Hb).
    exists (x :: before), after. repeat split; auto.
    intros u [<- | Hu]; auto.
Qed.

(** The second loop of [mode] never misses a key and stops at the
    first value holding the largest count. *)
Lemma first_with_count_find (values : list pyfloat) (max_count : Z) :
  forall rest,
    (forall v, In v rest -> In v values) ->
    first_with_count (Dict.count_into float_key_eqb [] values) max_count rest
    = Returns match find (fun v => frequency float_key_eqb v values =? max_count)
                         rest with
              | Some v => [v]
              | None => []
              end.
Proof.
  induction rest as [| v rest IH]; intros Hsub; simpl; [reflexivity |].
  unfold Dict.getitem.
  rewrite (lookup_element float_key_eqb float_key_refl float_key_sym
             float_key_trans values v (Hsub v (or_introl eq_refl))).
  cbn [bind].
  destruct (frequency float_key_eqb v values =? max_count); [reflexivity |].
  apply IH. intros u Hu. apply Hsub. now right.
Qed.

Lemma mode_by_frequency (values : list pyfloat) :
  mode values
  = Returns
      (if max_frequency float_key_eqb values <=? 1 then []
       else match find (fun v => frequency float_key_eqb v values
                                 =? max_frequency float_key_eqb values)
                       values with
            | Some v => [v]
            | None => []
            end).
Proof.
  unfold mode.
  rewrite (max_count_is_max_frequency float_key_eqb float_key_refl
             float_key_sym float_key_trans).
  destruct (max_frequency float_key_eqb values <=? 1); [reflexivity |].
  apply first_with_count_find. auto.
Qed.

(** C1. With the frequency of a value being the number of list
    elements that are the same dict key, and [m] the largest frequency:
    if [m <= 1], [mode] reports no mode; otherwise it returns exactly
    one value, the first element of the input whose frequency is [m],
    also when several values tie; on [3, 1, 3, 1] the result is [3]. *)
Theorem mode_first_of_max_frequency (values : list pyfloat) :
  let m := max_frequency float_key_eqb values in
  (m <= 1 -> mode values = Returns [])
  /\ (1 < m ->
      exists before v after,
        values = before ++ v :: after
        /\ frequency float_key_eqb v values = m
        /\ (forall u, In u before -> frequency float_key_eqb u values <> m)
        /\ mode values = Returns [v])
  /\ mode [PyFloat 1 3; PyFloat 2 1; PyFloat 3 3; PyFloat 4 1]
     = Returns [PyFloat 1 3].
Proof.
  intros m. rewrite mode_by_frequency. fold m.
  split; [| split].
  - intros Hm. apply Z.leb_le in Hm. now rewrite Hm.
  - intros Hm.
    assert (values <> []) as Hne
      by (intros ->; subst m; unfold max_frequency in Hm; simpl in Hm; lia).
    destruct (max_frequency_attained float_key_eqb float_key_refl values Hne)
      as (x & Hx & Hfx). fold m in Hfx.
    destruct (find (fun v => frequency float_key_eqb v values =? m) values)
      as [v |] eqn:Hfind.
    + destruct (find_first _ _ _ Hfind) as (before & after & Hsplit & Hv & Hb).
      exists before, v, after. repeat split.
      * exact Hsplit.
      * now apply Z.eqb_eq.
      * intros u Hu. apply Z.eqb_neq. now apply Hb.
      * f_equal. apply Z.leb_gt in Hm. now rewrite Hm.
    + apply (find_none _ _ Hfind) in Hx. apply Z.eqb_neq in Hx. congruence.
  - reflexivity.
Qed.

Lemma mode_first_of_max_frequency_witness :
  1 < max_frequency float_key_eqb
        [PyFloat 1 3; PyFloat 2 1; PyFloat 3 3; PyFloat 4 1]
  /\ exists before v after,
      [PyFloat 1 3; PyFloat 2 1; PyFloat 3 3; PyFloat 4 1] = before ++ v :: after
      /\ frequency float_key_eqb v
           [PyFloat 1 3; PyFloat 2 1; PyFloat 3 3; PyFloat 4 1] = 2
      /\ mode [PyFloat 1 3; PyFloat 2 1; PyFloat 3 3; PyFloat 4 1] = Returns [v].
Proof.
  split; [reflexivity |].
  destruct (proj1 (proj2 (mode_first_of_max_frequency
                            [PyFloat 1 3; PyFloat 2 1; PyFloat 3 3; PyFloat 4 1]))
              eq_refl)
    as (before & v & after & Hsplit & Hfreq & _ & Hmode).
  exists before, v, after. repeat split; assumption.
Defined.

(** C9. The frequency table built in one pass, over words or over
    float values: its counts add up to the length of the input, every
    stored count is at least 1, every key is an element of the input,
    and a value that occurs nowhere in the input has no entry. *)
Theorem frequency_table_sound :
  (forall words : list string,
      let freq := count_frequencies words in
      sum (Dict.values freq) = Z.of_nat (List.length words)
      /\ Forall (fun c => 1 <= c) (Dict.values freq)
      /\ (forall w, In w (Dict.keys freq) -> In w words)
      /\ (forall w, ~ In w words -> Dict.lookup String.eqb freq w = None))
  /\ (forall values : list pyfloat,
        let freq := Dict.count_into float_key_eqb [] values in
        sum (Dict.values freq) = Z.of_nat (List.length values)
        /\ Forall (fun c => 1 <= c) (Dict.values freq)
        /\ (forall v, In v (Dict.keys freq) -> In v values)
        /\ (forall v, (forall x, In x values -> float_key_eqb x v = false) ->
                      Dict.lookup float_key_eqb freq v = None)).
Proof.
  split.
  - intros words freq.
    destruct (frequency_table_invariants String.eqb words)
      as (Hsum & Hpos & Hkeys & Hnone).
    repeat split; auto.
    intros w Hw. apply Hnone. intros x Hx.
    apply String.eqb_neq. intros ->. contradiction.
  - intros values freq.
    exact (frequency_table_invariants float_key_eqb values).
Qed.

Lemma frequency_table_sound_witness :
  count_frequencies ["to"; "be"; "or"; "not"; "to"; "be"]
  = [("to", 2); ("be", 2); ("or", 1); ("not", 1)]
  /\ sum (Dict.values (count_frequencies ["to"; "be"; "or"; "not"; "to"; "be"]))
     = 6
  /\ ~ In "is" ["to"; "be"; "or"; "not"; "to"; "be"]
  /\ Dict.lookup String.eqb
       (count_frequencies ["to"; "be"; "or"; "not"; "to"; "be"]) "is" = None.
Proof.
  destruct (proj1 frequency_table_sound ["to"; "be"; "or"; "not"; "to"; "be"])
    as (Hsum & _ & _ & Hnone).
  assert (~ In "is" ["to"; "be"; "or"; "not"; "to"; "be"]) as Hnot
    by (simpl; intuition discriminate).
  split; [reflexivity |]. split; [exact Hsum |]. split; [exact Hnot |].
  apply Hnone, Hnot.
Defined.

(** ** Variance *)

Lemma squared_deviations_fold (values : list float) (m : float) :
  forall total,
    fold_left (fun total value =>
                 let diff := PrimFloat.sub value m in
                 PrimFloat.add total (PrimFloat.mul diff diff))
              values total
    = fold_left PrimFloat.add
        (map (fun v => PrimFloat.mul (PrimFloat.sub v m) (PrimFloat.sub v m)) values)
        total.
Proof.
  induction values as [| v values IH]; intros total; simpl.
  - reflexivity.
  - apply IH.
Qed.

(** C2. [population_variance] returns the sum of squared deviations
    from [m] divided by [count - 1] when there are at least two values,
    and exactly [0.0] otherwise; the variance of [2, 4] (mean 3) is
    [2.0], and that of a single-element list is [0.0]. *)
Theorem population_variance_sample (values : list float) (m : float) :
  let count := Z.of_nat (List.length values) in
  (2 <= count ->
   population_variance values m
   = Returns (PrimFloat.div (sum_squared_deviations values m)
                            (float_of_int (count - 1))))
  /\ (count < 2 -> population_variance values m = Returns 0%float)
  /\ mean [2; 4]%float = Returns 3%float
  /\ population_variance [2; 4]%float 3%float = Returns 2%float
  /\ (forall x, population_variance [x] m = Returns 0%float).
Proof.
  intros count. unfold population_variance. fold count.
  repeat apply conj.
  - intros Hc.
    replace (count <? 2) with false by (symmetry; apply Z.ltb_ge; lia).
    unfold truediv_int.
    replace (count - 1 =? 0) with false by (symmetry; apply Z.eqb_neq; lia).
    unfold sum_squared_deviations. now rewrite squared_deviations_fold.
  - intros Hc. apply Z.ltb_lt in Hc. now rewrite Hc.
  - reflexivity.
  - reflexivity.
  - reflexivity.
Qed.

Lemma population_variance_sample_witness :
  2 <= Z.of_nat (List.length [10; 20; 30]%float)
  /\ population_variance [10; 20; 30]%float 20%float
     = Returns (PrimFloat.div (sum_squared_deviations [10; 20; 30]%float 20%float)
                              (float_of_int 2))
  /\ Z.of_nat (List.length [7]%float) < 2
  /\ population_variance [7]%float 7%float = Returns 0%float.
Proof.
  split; [simpl; lia |].
  split; [apply (proj1 (population_variance_sample [10; 20; 30]%float 20%float));
          simpl; lia |].
  split; [simpl; lia |].
  apply (proj1 (proj2 (population_variance_sample [7]%float 7%float))).
  simpl; lia.
Defined.

(** ** Words *)

Section Strip.

Variable drop : ascii -> bool.

Lemma lstrip_by_spec (s : string) :
  exists pre,
    s = (pre ++ lstrip_by drop s)%string
    /\ all_chars drop pre = true
    /\ forall c, first_char (lstrip_by drop s) = Some c -> drop c = false.
Proof.
  induction s as [| c s IH]; simpl.
  - exists EmptyString. repeat split. discriminate.
  - destruct (drop c) eqn:Hc.
    + destruct IH as (pre & Hs & Hpre & Hfirst).
      exists (String c pre). simpl. rewrite Hc, Hpre, <- Hs. auto.
    + exists EmptyString. repeat split. simpl. intros d [= <-]. exact Hc.
Qed.

Lemma rstrip_by_spec (s : string) :
  exists post,
    s = (rstrip_by drop s ++ post)%string
    /\ all_chars drop post = true
    /\ forall c, last_char (rstrip_by drop s) = Some c -> drop c = false.
Proof.
  induction s as [| c s IH]; simpl.
  - exists EmptyString. repeat split. discriminate.
  - destruct IH as (post & Hs & Hpost & Hlast).
    destruct (rstrip_by drop s) as [| d r] eqn:Hr.
    + simpl in Hs. subst post.
      destruct (drop c) eqn:Hc.
      * exists (String c s). simpl. rewrite Hc, Hpost. repeat split. discriminate.
      * exists s. simpl. repeat split; auto. intros d [= <-]. exact Hc.
    + exists post. simpl. rewrite Hs at 1. repeat split; auto.
Qed.

Lemma rstrip_by_first (s : string) (c : ascii) :
  first_char (rstrip_by drop s) = Some c -> first_char s = Some c.
Proof.
  destruct s as [| d s]; simpl; [discriminate |].
  destruct (rstrip_by drop s); [destruct (drop d) |]; simpl; congruence.
Qed.

(** Stripping removes a prefix and a suffix made of dropped
    characters only, and what is left neither starts nor ends with
    one. *)
Lemma strip_by_spec (s : string) :
  exists pre post,
    s = (pre ++ strip_by drop s ++ post)%string
    /\ all_chars drop pre = true
    /\ all_chars drop post = true
    /\ (forall c, first_char (strip_by drop s) = Some c -> drop c = false)
    /\ (forall c, last_char (strip_by drop s) = Some c -> drop c = false).
Proof.
  unfold strip_by.
  destruct (lstrip_by_spec s) as (pre & Hs & Hpre & Hfirst).
  destruct (rstrip_by_spec (lstrip_by drop s)) as (post & Hl & Hpost & Hlast).
  exists pre, post. repeat split; auto.
  - rewrite <- Hl. exact Hs.
  - intros c Hc. apply Hfirst. now apply rstrip_by_first.
Qed.

Lemma strip_by_all_dropped (s : string) :
  all_chars drop s = true -> strip_by drop s = EmptyString.
Proof.
  unfold strip_by. intros Hs.
  replace (lstrip_by drop s) with EmptyString; [reflexivity |].
  induction s as [| c s IH]; simpl in *; [reflexivity |].
  apply andb_true_iff in Hs. destruct Hs as [Hc Hs]. rewrite Hc. auto.
Qed.

End Strip.

Lemma collect_words_filter (tokens : list string) :
  forall words,
    collect_words words tokens
    = words ++ filter truthy (map normalize_word tokens).
Proof.
  unfold collect_words.
  induction tokens as [| token tokens IH]; intros words; simpl.
  - now rewrite app_nil_r.
  - rewrite IH. destruct (truthy (normalize_word token)).
    + now rewrite <- app_assoc.
    + reflexivity.
Qed.

Lemma read_words_tokens (text : string) :
  split text <> [] ->
  read_words (Utf8Text text)
  = (filter truthy (map normalize_word (split text)), []).
Proof.
  intros Hne. unfold read_words.
  destruct (split text) as [| t ts] eqn:Hs; [congruence |].
  now rewrite collect_words_filter.
Qed.

(** C5, with the stripped set as the code has it. [normalize_word] removes from both ends
    of a token every character of the fixed set, until neither end is
    one, and lowercases what is left; a token that normalizes to the
    empty string adds no word and no message; ["Hello, world!!"] gives
    the words [hello] and [world]; a token made only of characters of
    the set, such as [?!], adds nothing, while [---] is kept as a word,
    the hyphen not being in the set. *)
Theorem normalize_word_strips_and_lowers :
  (forall token,
      exists pre mid post,
        token = (pre ++ mid ++ post)%string
        /\ all_chars (contains PUNCTUATION) pre = true
        /\ all_chars (contains PUNCTUATION) post = true
        /\ (forall c, first_char mid = Some c -> contains PUNCTUATION c = false)
        /\ (forall c, last_char mid = Some c -> contains PUNCTUATION c = false)
        /\ normalize_word token = lower mid)
  /\ (forall text,
        split text <> [] ->
        read_words (Utf8Text text)
        = (filter truthy (map normalize_word (split text)), []))
  /\ (forall token,
        all_chars (contains PUNCTUATION) token = true ->
        normalize_word token = EmptyString)
  /\ read_words (Utf8Text "Hello, world!!") = (["hello"; "world"], [])
  /\ read_words (Utf8Text "?!") = ([], [])
  /\ read_words (Utf8Text "---") = (["---"], []).
Proof.
  repeat apply conj; try reflexivity.
  - intros token.
    destruct (strip_by_spec (contains PUNCTUATION) token)
      as (pre & post & Hs & Hpre & Hpost & Hfirst & Hlast).
    exists pre, (strip_chars PUNCTUATION token), post.
    repeat split; auto.
  - apply read_words_tokens.
  - intros token Htoken. unfold normalize_word, strip_chars.
    now rewrite strip_by_all_dropped.
Qed.

Lemma normalize_word_strips_and_lowers_witness :
  split "(Hello), ... world!!" <> []
  /\ read_words (Utf8Text "(Hello), ... world!!")
     = (filter truthy (map normalize_word (split "(Hello), ... world!!")), [])
  /\ all_chars (contains PUNCTUATION) "..." = true
  /\ normalize_word "..." = EmptyString.
Proof.
  split; [discriminate |].
  split; [apply (proj1 (proj2 normalize_word_strips_and_lowers)); discriminate |].
  split; [reflexivity |].
  apply (proj1 (proj2 (proj2 normalize_word_strips_and_lowers))). reflexivity.
Defined.

(** Against the hyphen example of C5: the token [---] is not made of
    stripped characters, normalizes to itself and is counted as a
    word. *)
Lemma hyphens_are_a_word :
  normalize_word "---" = "---"
  /\ fst (read_words (Utf8Text "---")) <> [].
Proof. split; [reflexivity | discriminate]. Qed.

(** C7. When the file is not valid UTF-8, [read_words] returns no word
    and exactly one message; when the text splits into no token, it
    returns no word and exactly the one "no readable tokens" warning.
    The other two readers let the decoding error propagate. *)
Theorem read_words_source_failures :
  read_words InvalidUtf8
  = ([], ["File encoding error: could not read as UTF-8."])
  /\ (forall text,
        split text = [] ->
        read_words (Utf8Text text)
        = ([], ["Warning: file contained no readable tokens."]))
  /\ (forall py_float, parse_numbers py_float InvalidUtf8 = Raises UnicodeDecodeError)
  /\ (forall py_int, parse_integers py_int InvalidUtf8 = Raises UnicodeDecodeError).
Proof.
  repeat apply conj; try reflexivity.
  intros text Hs. unfold read_words. now rewrite Hs.
Qed.

Lemma read_words_source_failures_witness :
  split "   " = []
  /\ read_words (Utf8Text "   ")
     = ([], ["Warning: file contained no readable tokens."]).
Proof.
  split; [reflexivity |].
  apply (proj1 (proj2 read_words_source_failures)). reflexivity.
Defined.

Lemma no_words_of_empty_tokens (tokens : list string) :
  Forall (fun token => normalize_word token = EmptyString) tokens ->
  filter truthy (map normalize_word tokens) = [].
Proof.
  induction 1 as [| token tokens Htoken Hall IH]; simpl.
  - reflexivity.
  - rewrite Htoken. simpl. exact IH.
Qed.

(** C10. A text with at least one token, all of whose tokens normalize
    to the empty string, gives no word and no message: the "no
    readable tokens" warning is decided on the raw tokens. *)
Theorem read_words_all_tokens_empty (text : string) :
  split text <> [] ->
  Forall (fun token => normalize_word token = EmptyString) (split text) ->
  read_words (Utf8Text text) = ([], []).
Proof.
  intros Hne Hall. rewrite read_words_tokens by exact Hne.
  now rewrite no_words_of_empty_tokens.
Qed.

Lemma read_words_all_tokens_empty_witness :
  split "... !? ()" <> []
  /\ Forall (fun token => normalize_word token = EmptyString) (split "... !? ()")
  /\ read_words (Utf8Text "... !? ()") = ([], []).
Proof.
  split; [discriminate |].
  split; [repeat constructor |].
  apply (read_words_all_tokens_empty "... !? ()");
    [discriminate | repeat constructor].
Defined.

(** ** The statistics pipeline, end to end *)

(** C6, with the messages as the code records them. On the file whose lines are [10], [bad],
    [20], an empty line and [30], [parse_numbers] accepts the values
    10, 20 and 30 and records two messages, an invalid number on line
    2 and an empty line on line 4; on these values the mean is 20.0,
    the median 20.0, there is no mode, and the variance is 100.0. *)
Theorem statistics_end_to_end (py_float : string -> option float) :
  py_float "10" = Some 10%float ->
  py_float "20" = Some 20%float ->
  py_float "30" = Some 30%float ->
  py_float "bad" = None ->
  exists values errors,
    parse_numbers py_float (file_of_lines ["10"; "bad"; "20"; EmptyString; "30"])
    = Returns (values, errors)
    /\ map fval values = [10; 20; 30]%float
    /\ errors = ["Line 2: invalid number 'bad' (skipped).";
                 "Line 4: empty line (skipped)."]
    /\ mean (map fval values) = Returns 20%float
    /\ median (map fval values) = Returns 20%float
    /\ mode values = Returns []
    /\ population_variance (map fval values) 20%float = Returns 100%float.
Proof.
  intros H10 H20 H30 Hbad.
  exists [PyFloat 1 10; PyFloat 3 20; PyFloat 5 30],
    ["Line 2: invalid number 'bad' (skipped).";
     "Line 4: empty line (skipped)."].
  split.
  - unfold parse_numbers, file_of_lines. f_equal.
    change (readlines _)
      with [String "1" (String "0" (String LF EmptyString));
            String "b" (String "a" (String "d" (String LF EmptyString)));
            String "2" (String "0" (String LF EmptyString));
            String LF EmptyString; "30"].
    cbn [parse_lines]. unfold ComputeStatistics.parse_line.
    change (strip (String "1" (String "0" (String LF EmptyString)))) with "10".
    change (strip (String "b" (String "a" (String "d" (String LF EmptyString)))))
      with "bad".
    change (strip (String "2" (String "0" (String LF EmptyString)))) with "20".
    change (strip (String LF EmptyString)) with EmptyString.
    change (strip "30") with "30".
    cbn [truthy negb]. rewrite H10. cbn [truthy negb]. rewrite Hbad.
    cbn [truthy negb]. rewrite H20. cbn [truthy negb]. rewrite H30.
    reflexivity.
  - repeat split; reflexivity.
Qed.

Lemma statistics_end_to_end_witness :
  float_of_digits "10" = Some 10%float
  /\ float_of_digits "20" = Some 20%float
  /\ float_of_digits "30" = Some 30%float
  /\ float_of_digits "bad" = None
  /\ exists values errors,
      parse_numbers float_of_digits (file_of_lines ["10"; "bad"; "20"; EmptyString; "30"])
      = Returns (values, errors)
      /\ map fval values = [10; 20; 30]%float
      /\ errors = ["Line 2: invalid number 'bad' (skipped).";
                   "Line 4: empty line (skipped)."]
      /\ mean (map fval values) = Returns 20%float
      /\ median (map fval values) = Returns 20%float
      /\ mode values = Returns []
      /\ population_variance (map fval values) 20%float = Returns 100%float.
Proof.
  repeat (split; [reflexivity |]).
  apply (statistics_end_to_end float_of_digits); reflexivity.
Defined.

(** Against the count of recorded outcomes in C6: the five lines
    leave two messages, not three. *)
Lemma two_messages_not_three :
  exists values errors,
    parse_numbers float_of_digits (file_of_lines ["10"; "bad"; "20"; EmptyString; "30"])
    = Returns (values, errors)
    /\ List.length errors = 2%nat
    /\ List.length errors <> 3%nat.
Proof.
  eexists _, _. split; [reflexivity |]. split; [reflexivity | discriminate].
Qed.

(** * Further properties of the three programs *)

(** ** The line parsers *)

Section ParseNumbers.

Variable py_float : string -> option float.

(** What the loop of [parse_numbers] adds to its two lists, from line
    number [k] on. *)
Lemma parse_numbers_lines (lines : list string) :
  forall k numbers errors,
  exists vs es,
    ComputeStatistics.parse_lines py_float (numbers, errors) k lines
    = (numbers ++ vs, errors ++ es)
    /\ (List.length vs + List.length es = List.length lines)%nat
    /\ StronglySorted Nat.lt (map oid vs)
    /\ (forall v, In v vs ->
          (k <= oid v)%nat
          /\ exists raw,
              nth_error lines (oid v - k) = Some raw
              /\ strip raw <> EmptyString
              /\ py_float (strip raw) = Some (fval v))
    /\ (forall i raw,
          nth_error lines i = Some raw ->
          (strip raw = EmptyString ->
           In ("Line " ++ str_of_nat (k + i) ++ ": empty line (skipped).")%string es)
          /\ (strip raw <> EmptyString -> py_float (strip raw) = None ->
              In ("Line " ++ str_of_nat (k + i) ++ ": invalid number '"
                  ++ strip raw ++ "' (skipped).")%string es)).
Proof.
  induction lines as [| raw lines IH]; intros k numbers errors.
  - exists [], []. simpl. rewrite !app_nil_r.
    repeat split; try constructor; try contradiction;
      destruct i; discriminate.
  - cbn [ComputeStatistics.parse_lines]. unfold ComputeStatistics.parse_line.
    destruct (strip raw) as [| c text] eqn:Hstrip; cbn [truthy negb].
    + destruct (IH (S k) numbers
                  (errors ++ [("Line " ++ str_of_nat k
                               ++ ": empty line (skipped).")%string]))
        as (vs & es & Hrun & Hlen & Hsorted & Hvs & Hes).
      exists vs, (("Line " ++ str_of_nat k ++ ": empty line (skipped).")%string :: es).
      rewrite Hrun, <- app_assoc. split; [reflexivity |].
      split; [simpl; lia |]. split; [exact Hsorted |]. split.
      * intros v Hv. destruct (Hvs v Hv) as (Hk & raw' & Hnth & Hne & Hval).
        split; [lia |]. exists raw'.
        replace (oid v - k)%nat with (S (oid v - S k)) by lia. auto.
      * intros [| i] raw' Hnth; simpl in Hnth.
        -- injection Hnth as <-. rewrite Nat.add_0_r, Hstrip.
           split; [intros _; now left | congruence].
        -- destruct (Hes i raw' Hnth) as [He Hi].
           replace (k + S i)%nat with (S k + i)%nat by lia.
           split; intros; right; auto.
    + rewrite <- Hstrip.
      destruct (py_float (strip raw)) as [x |] eqn:Hfloat.
      * destruct (IH (S k) (numbers ++ [PyFloat k x]) errors)
          as (vs & es & Hrun & Hlen & Hsorted & Hvs & Hes).
        exists (PyFloat k x :: vs), es.
        rewrite Hrun, <- app_assoc. split; [reflexivity |].
        split; [simpl; lia |]. split; [| split].
        -- simpl. constructor; [exact Hsorted |].
           apply Forall_forall. intros n Hn. apply in_map_iff in Hn.
           destruct Hn as (v & <- & Hv). destruct (Hvs v Hv) as [Hk _].
           unfold Nat.lt. lia.
        -- intros v [<- | Hv].
           ++ split; [simpl; lia |]. exists raw. simpl. rewrite Nat.sub_diag.
              repeat split; auto. rewrite Hstrip. discriminate.
           ++ destruct (Hvs v Hv) as (Hk & raw' & Hnth & Hne & Hval).
              split; [lia |]. exists raw'.
              replace (oid v - k)%nat with (S (oid v - S k)) by lia. auto.
        -- intros [| i] raw' Hnth; simpl in Hnth.
           ++ injection Hnth as <-. rewrite Hstrip at 1.
              split; [discriminate | congruence].
           ++ destruct (Hes i raw' Hnth) as [He Hi].
              replace (k + S i)%nat with (S k + i)%nat by lia. auto.
      * destruct (IH (S k) numbers
                    (errors ++ [("Line " ++ str_of_nat k ++ ": invalid number '"
                                 ++ strip raw ++ "' (skipped).")%string]))
          as (vs & es & Hrun & Hlen & Hsorted & Hvs & Hes).
        exists vs, (("Line " ++ str_of_nat k ++ ": invalid number '"
                     ++ strip raw ++ "' (skipped).")%string :: es).
        rewrite Hrun, <- app_assoc. split; [reflexivity |].
        split; [simpl; lia |]. split; [exact Hsorted |]. split.
        -- intros v Hv. destruct (Hvs v Hv) as (Hk & raw' & Hnth & Hne & Hval).
           split; [lia |]. exists raw'.
           replace (oid v - k)%nat with (S (oid v - S k)) by lia. auto.
        -- intros [| i] raw' Hnth; simpl in Hnth.
           ++ injection Hnth as <-. rewrite Nat.add_0_r.
              split; [rewrite Hstrip; discriminate | intros _ _; now left].
           ++ destruct (Hes i raw' Hnth) as [He Hi].
              replace (k + S i)%nat with (S k + i)%nat by lia.
              split; intros; right; auto.
Qed.

(** The loop adds, in file order, the value of every line that gives
    one and the message of every other line. *)
Lemma parse_numbers_outcomes (lines : list string) :
  forall k numbers errors,
    ComputeStatistics.parse_lines py_float (numbers, errors) k lines
    = (numbers ++ lefts (outcomes_from (number_line_outcome py_float) k lines),
       errors ++ rights (outcomes_from (number_line_outcome py_float) k lines)).
Proof.
  induction lines as [| raw lines IH]; intros k numbers errors.
  - simpl. now rewrite !app_nil_r.
  - cbn [ComputeStatistics.parse_lines outcomes_from].
    unfold ComputeStatistics.parse_line, number_line_outcome.
    destruct (strip raw) as [| c text]; cbn [truthy negb].
    + rewrite IH. cbn [lefts rights]. now rewrite <- app_assoc.
    + destruct (py_float (String c text)); rewrite IH; cbn [lefts rights];
        now rewrite <- app_assoc.
Qed.

End ParseNumbers.

Lemma outcomes_from_length {A : Type} (outcome : nat -> string -> A)
      (lines : list string) :
  forall k, List.length (outcomes_from outcome k lines) = List.length lines.
Proof.
  induction lines as [| raw lines IH]; intros k; simpl; [| rewrite IH];
    reflexivity.
Qed.

(** X1. [parse_numbers] accounts for every line of a decoded file.
    Each line has exactly one outcome: the float object read on the
    stripped line when [float] accepts it, the message for a blank line
    or for a rejected line otherwise.  The values returned are exactly
    the values of these outcomes and the messages exactly their
    messages, both in file order; so the two lists together are as long
    as the file, the values carry strictly increasing line numbers, each
    is what [float] read on its own line, and every blank or rejected
    line is reported under its own number, the rejected text
    verbatim. *)
Theorem parse_numbers_accounts_for_every_line
        (py_float : string -> option float) (text : string) :
  exists values errors,
    parse_numbers py_float (Utf8Text text) = Returns (values, errors)
    /\ values
       = lefts (outcomes_from (number_line_outcome py_float) 1
                              (readlines text))
    /\ errors
       = rights (outcomes_from (number_line_outcome py_float) 1
                               (readlines text))
    /\ List.length (outcomes_from (number_line_outcome py_float) 1
                                  (readlines text))
       = List.length (readlines text)
    /\ (List.length values + List.length errors
        = List.length (readlines text))%nat
    /\ StronglySorted Nat.lt (map oid values)
    /\ (forall v, In v values ->
          (1 <= oid v)%nat
          /\ exists raw,
              nth_error (readlines text) (oid v - 1) = Some raw
              /\ strip raw <> EmptyString
              /\ py_float (strip raw) = Some (fval v))
    /\ (forall i raw,
          nth_error (readlines text) i = Some raw ->
          (strip raw = EmptyString ->
           In ("Line " ++ str_of_nat (1 + i) ++ ": empty line (skipped).")%string
              errors)
          /\ (strip raw <> EmptyString -> py_float (strip raw) = None ->
              In ("Line " ++ str_of_nat (1 + i) ++ ": invalid number '"
                  ++ strip raw ++ "' (skipped).")%string errors)).
Proof.
  destruct (parse_numbers_lines py_float (readlines text) 1%nat [] [])
    as (vs & es & Hrun & Hrest).
  pose proof (parse_numbers_outcomes py_float (readlines text) 1%nat [] [])
    as Hout.
  rewrite Hrun in Hout. cbn [app] in Hout.
  exists vs, es.
  split; [unfold parse_numbers; now rewrite Hrun |].
  split; [congruence |]. split; [congruence |].
  split; [apply outcomes_from_length | exact Hrest].
Qed.

Section ParseIntegers.

Variable py_int : string -> option Z.

Lemma parse_integers_lines (lines : list string) :
  forall k values errors,
  exists vs es,
    ConvertNumbers.parse_lines py_int (values, errors) k lines
    = (values ++ vs, errors ++ es)
    /\ (List.length vs + List.length es = List.length lines)%nat
    /\ (forall n, In n vs ->
          exists raw, In raw lines
                      /\ strip raw <> EmptyString
                      /\ py_int (strip raw) = Some n)
    /\ (forall i raw,
          nth_error lines i = Some raw ->
          (strip raw = EmptyString ->
           In ("Line " ++ str_of_nat (k + i) ++ ": empty line (skipped).")%string es)
          /\ (strip raw <> EmptyString -> py_int (strip raw) = None ->
              In ("Line " ++ str_of_nat (k + i) ++ ": invalid integer '"
                  ++ strip raw ++ "' (skipped).")%string es)).
Proof.
  induction lines as [| raw lines IH]; intros k values errors.
  - exists [], []. simpl. rewrite !app_nil_r.
    repeat split; try contradiction; destruct i; discriminate.
  - cbn [ConvertNumbers.parse_lines]. unfold ConvertNumbers.parse_line.
    destruct (strip raw) as [| c text] eqn:Hstrip; cbn [truthy negb].
    + destruct (IH (S k) values
                  (errors ++ [("Line " ++ str_of_nat k
                               ++ ": empty line (skipped).")%string]))
        as (vs & es & Hrun & Hlen & Hvs & Hes).
      exists vs, (("Line " ++ str_of_nat k ++ ": empty line (skipped).")%string :: es).
      rewrite Hrun, <- app_assoc. split; [reflexivity |].
      split; [simpl; lia |]. split.
      * intros n Hn. destruct (Hvs n Hn) as (raw' & Hin & Hrest).
        exists raw'. split; [now right | exact Hrest].
      * intros [| i] raw' Hnth; simpl in Hnth.
        -- injection Hnth as <-. rewrite Nat.add_0_r, Hstrip.
           split; [intros _; now left | congruence].
        -- destruct (Hes i raw' Hnth) as [He Hi].
           replace (k + S i)%nat with (S k + i)%nat by lia.
           split; intros; right; auto.
    + rewrite <- Hstrip.
      destruct (py_int (strip raw)) as [x |] eqn:Hint.
      * destruct (IH (S k) (values ++ [x]) errors)
          as (vs & es & Hrun & Hlen & Hvs & Hes).
        exists (x :: vs), es.
        rewrite Hrun, <- app_assoc. split; [reflexivity |].
        split; [simpl; lia |]. split.
        -- intros n [<- | Hn].
           ++ exists raw. split; [now left |]. split; [| exact Hint].
              rewrite Hstrip. discriminate.
           ++ destruct (Hvs n Hn) as (raw' & Hin & Hrest).
              exists raw'. split; [now right | exact Hrest].
        -- intros [| i] raw' Hnth; simpl in Hnth.
           ++ injection Hnth as <-. rewrite Hstrip at 1.
              split; [discriminate | congruence].
           ++ destruct (Hes i raw' Hnth) as [He Hi].
              replace (k + S i)%nat with (S k + i)%nat by lia. auto.
      * destruct (IH (S k) values
                    (errors ++ [("Line " ++ str_of_nat k ++ ": invalid integer '"
                                 ++ strip raw ++ "' (skipped).")%string]))
          as (vs & es & Hrun & Hlen & Hvs & Hes).
        exists vs, (("Line " ++ str_of_nat k ++ ": invalid integer '"
                     ++ strip raw ++ "' (skipped).")%string :: es).
        rewrite Hrun, <- app_assoc. split; [reflexivity |].
        split; [simpl; lia |]. split.
        -- intros n Hn. destruct (Hvs n Hn) as (raw' & Hin & Hrest).
           exists raw'. split; [now right | exact Hrest].
        -- intros [| i] raw' Hnth; simpl in Hnth.
           ++ injection Hnth as <-. rewrite Nat.add_0_r.
              split; [rewrite Hstrip; discriminate | intros _ _; now left].
           ++ destruct (Hes i raw' Hnth) as [He Hi].
              replace (k + S i)%nat with (S k + i)%nat by lia.
              split; intros; right; auto.
Qed.

Lemma parse_integers_outcomes (lines : list string) :
  forall k values errors,
    ConvertNumbers.parse_lines py_int (values, errors) k lines
    = (values ++ lefts (outcomes_from (integer_line_outcome py_int) k lines),
       errors ++ rights (outcomes_from (integer_line_outcome py_int) k lines)).
Proof.
  induction lines as [| raw lines IH]; intros k values errors.
  - simpl. now rewrite !app_nil_r.
  - cbn [ConvertNumbers.parse_lines outcomes_from].
    unfold ConvertNumbers.parse_line, integer_line_outcome.
    destruct (strip raw) as [| c text]; cbn [truthy negb].
    + rewrite IH. cbn [lefts rights]. now rewrite <- app_assoc.
    + destruct (py_int (String c text)); rewrite IH; cbn [lefts rights];
        now rewrite <- app_assoc.
Qed.

End ParseIntegers.

(** X2. [parse_integers] accounts for every line of a decoded file.
    Each line has exactly one outcome: the integer read on the stripped
    line when [int] accepts it, the message for a blank line or for a
    rejected line otherwise.  The values returned are exactly the
    values of these outcomes and the messages exactly their messages,
    both in file order; so the two lists together are as long as the
    file, every value is what [int] read on a stripped, non-empty line,
    and every blank or rejected line is reported under its own number,
    the rejected text verbatim. *)
Theorem parse_integers_accounts_for_every_line
        (py_int : string -> option Z) (text : string) :
  exists values errors,
    parse_integers py_int (Utf8Text text) = Returns (values, errors)
    /\ values
       = lefts (outcomes_from (integer_line_outcome py_int) 1 (readlines text))
    /\ errors
       = rights (outcomes_from (integer_line_outcome py_int) 1 (readlines text))
    /\ List.length (outcomes_from (integer_line_outcome py_int) 1
                                  (readlines text))
       = List.length (readlines text)
    /\ (List.length values + List.length errors
        = List.length (readlines text))%nat
    /\ (forall n, In n values ->
          exists raw, In raw (readlines text)
                      /\ strip raw <> EmptyString
                      /\ py_int (strip raw) = Some n)
    /\ (forall i raw,
          nth_error (readlines text) i = Some raw ->
          (strip raw = EmptyString ->
           In ("Line " ++ str_of_nat (1 + i) ++ ": empty line (skipped).")%string
              errors)
          /\ (strip raw <> EmptyString -> py_int (strip raw) = None ->
              In ("Line " ++ str_of_nat (1 + i) ++ ": invalid integer '"
                  ++ strip raw ++ "' (skipped).")%string errors)).
Proof.
  destruct (parse_integers_lines py_int (readlines text) 1%nat [] [])
    as (vs & es & Hrun & Hrest).
  pose proof (parse_integers_outcomes py_int (readlines text) 1%nat [] [])
    as Hout.
  rewrite Hrun in Hout. cbn [app] in Hout.
  exists vs, es.
  split; [unfold parse_integers; now rewrite Hrun |].
  split; [congruence |]. split; [congruence |].
  split; [apply outcomes_from_length | exact Hrest].
Qed.

(** ** Mean, median and standard deviation *)

Lemma mean_returns (values : list float) :
  values <> [] -> exists m, mean values = Returns m.
Proof.
  intros Hne. unfold mean, truediv_int.
  destruct values as [| x values]; [congruence |].
  replace (Z.of_nat (List.length (x :: values)) =? 0) with false
    by (symmetry; apply Z.eqb_neq; simpl List.length; lia).
  eexists. reflexivity.
Qed.

Lemma median_returns (values : list float) :
  values <> [] -> exists m, median values = Returns m.
Proof.
  intros Hne. destruct (median_middle values Hne) as [Hodd Heven].
  pose proof (Z.mod_pos_bound (Z.of_nat (List.length values)) 2 ltac:(lia)) as Hb.
  assert (Z.of_nat (List.length values) mod 2 = 1
          \/ Z.of_nat (List.length values) mod 2 = 0) as [Hp | Hp] by lia.
  - destruct (Hodd Hp) as (x & _ & Hm). eauto.
  - destruct (Heven Hp) as (a & b & _ & _ & Hm). eauto.
Qed.

(** X3. [mean] and [median] fail on the empty list and only there:
    [mean] raises [ZeroDivisionError] and [median] raises [IndexError]
    exactly when the list is empty, and both return a float
    otherwise. *)
Theorem mean_median_fail_only_on_empty (values : list float) :
  (mean values = Raises ZeroDivisionError <-> values = [])
  /\ (median values = Raises IndexError <-> values = [])
  /\ (values <> [] ->
      exists m md, mean values = Returns m /\ median values = Returns md).
Proof.
  destruct values as [| x values].
  - repeat split; auto; congruence.
  - assert (x :: values <> []) as Hne by discriminate.
    destruct (mean_returns _ Hne) as (m & Hm).
    destruct (median_returns _ Hne) as (md & Hmd).
    rewrite Hm, Hmd.
    repeat split; try discriminate. intros _. eauto.
Qed.

Lemma mean_median_fail_only_on_empty_witness :
  [1.5; 2.5]%float <> []
  /\ exists m md, mean [1.5; 2.5]%float = Returns m
                  /\ median [1.5; 2.5]%float = Returns md.
Proof.
  split; [discriminate |].
  apply (proj2 (proj2 (mean_median_fail_only_on_empty [1.5; 2.5]%float))).
  discriminate.
Defined.

Section Signs.

Variables prec emax : Z.

Lemma binary_round_aux_sign (mx ex : Z) (lx : location) :
  0 <= mx -> sf_not_negative (binary_round_aux prec emax false mx ex lx).
Proof.
  intros Hm. unfold binary_round_aux.
  destruct (shr_fexp prec emax mx ex lx) as [mrs' e'].
  destruct (shr_fexp prec emax
              (round_nearest_even (shr_m mrs') (loc_of_shr_record mrs'))
              e' loc_Exact) as [mrs'' e''].
  destruct (shr_m mrs''); simpl; auto.
  destruct (e'' <=? emax - prec); simpl; auto.
Qed.

Lemma binary_normalize_sign (m e : Z) :
  0 <= m -> sf_not_negative (binary_normalize prec emax m e false).
Proof.
  intros Hm. destruct m as [| p | p]; simpl; [reflexivity | | lia].
  unfold binary_round. destruct (shl_align _ _ _).
  apply binary_round_aux_sign. lia.
Qed.

Lemma SFmul_square_sign (x : spec_float) :
  sf_not_negative (SFmul prec emax x x).
Proof.
  destruct x as [s | s | | s m e]; simpl; auto using xorb_nilpotent.
  rewrite xorb_nilpotent. apply binary_round_aux_sign. lia.
Qed.

Lemma SFadd_sign (x y : spec_float) :
  sf_not_negative x -> sf_not_negative y ->
  sf_not_negative (SFadd prec emax x y).
Proof.
  destruct x as [sx | sx | | sx mx ex], y as [sy | sy | | sy my ey]; simpl;
    auto; intros -> ->; simpl; auto.
  unfold binary_round. destruct (shl_align _ _ _).
  apply binary_round_aux_sign. lia.
Qed.

Lemma SFdiv_sign (x y : spec_float) :
  sf_not_negative x -> sf_not_negative y ->
  sf_not_negative (SFdiv prec emax x y).
Proof.
  destruct x as [sx | sx | | sx mx ex], y as [sy | sy | | sy my ey]; simpl;
    auto; intros -> ->; simpl; auto.
  unfold SFdiv_core_binary.
  set (m' := match _ with Z0 => Z.pos mx | Zpos _ => _ | Zneg _ => 0 end).
  assert (0 <= m') as Hm'.
  { subst m'. destruct (_ - _ - _); try lia. apply Z.shiftl_nonneg. lia. }
  pose proof (Z.div_eucl_eq m' (Z.pos my) ltac:(lia)) as Heq.
  pose proof (Z.mod_pos_bound m' (Z.pos my) ltac:(lia)) as Hmod.
  unfold Z.modulo in Hmod.
  destruct (Z.div_eucl m' (Z.pos my)) as [q r].
  apply binary_round_aux_sign. nia.
Qed.

End Signs.

Lemma float_of_int_sign (n : Z) :
  0 <= n -> sf_not_negative (Prim2SF (float_of_int n)).
Proof.
  intros Hn. unfold float_of_int.
  replace (n <? 0) with false by (symmetry; apply Z.ltb_ge; lia).
  rewrite FloatAxioms.of_uint63_spec.
  apply binary_normalize_sign. apply Uint63.to_Z_bounded.
Qed.

Lemma not_negative_ltb_zero (v : float) :
  sf_not_negative (Prim2SF v) -> PrimFloat.ltb v 0%float = false.
Proof.
  rewrite FloatAxioms.ltb_spec.
  change (Prim2SF 0%float) with (S754_zero false).
  destruct (Prim2SF v) as [s | s | | s m e]; simpl; auto; intros ->; reflexivity.
Qed.

Lemma squared_deviations_sign (values : list float) (m : float) :
  forall total,
    sf_not_negative (Prim2SF total) ->
    sf_not_negative
      (Prim2SF
         (fold_left (fun total value =>
                       let diff := PrimFloat.sub value m in
                       PrimFloat.add total (PrimFloat.mul diff diff))
                    values total)).
Proof.
  induction values as [| v values IH]; intros total Htotal; simpl.
  - exact Htotal.
  - apply IH. rewrite FloatAxioms.add_spec, FloatAxioms.mul_spec.
    apply SFadd_sign; [exact Htotal | apply SFmul_square_sign].
Qed.

(** The variance that [population_variance] returns is never below
    zero: it is NaN, or its sign bit is clear. *)
Lemma population_variance_sign (values : list float) (m : float) :
  exists variance,
    population_variance values m = Returns variance
    /\ sf_not_negative (Prim2SF variance).
Proof.
  unfold population_variance.
  destruct (Z.of_nat (List.length values) <? 2) eqn:Hlen.
  - exists 0%float. split; reflexivity.
  - apply Z.ltb_ge in Hlen. unfold truediv_int.
    replace (Z.of_nat (List.length values) - 1 =? 0) with false
      by (symmetry; apply Z.eqb_neq; lia).
    eexists. split; [reflexivity |].
    rewrite FloatAxioms.div_spec. apply SFdiv_sign.
    + apply squared_deviations_sign. reflexivity.
    + apply float_of_int_sign. lia.
Qed.

(** X4. Whatever the values and the mean passed in, NaN and
    infinities included, the variance that [population_variance]
    returns is never below zero, so [population_std_dev] never raises
    [ValueError] on it and returns its square root. *)
Theorem std_dev_of_variance_never_raises (values : list float) (m : float) :
  exists variance,
    population_variance values m = Returns variance
    /\ PrimFloat.ltb variance 0%float = false
    /\ population_std_dev variance = Returns (PrimFloat.sqrt variance).
Proof.
  destruct (population_variance_sign values m) as (variance & Hvar & Hsign).
  exists variance. apply not_negative_ltb_zero in Hsign.
  split; [exact Hvar |]. split; [exact Hsign |].
  unfold population_std_dev. now rewrite Hsign.
Qed.

Lemma message_block_lines (header : string) (messages lines : list string) :
  (if truthy_list messages
   then lines ++ [header] ++ messages ++ [EmptyString]
   else lines)
  = lines ++ message_block header messages.
Proof.
  destruct messages; simpl; [now rewrite app_nil_r | reflexivity].
Qed.

Lemma message_block_In (header : string) (messages : list string) (e : string) :
  In e messages -> In e (message_block header messages).
Proof.
  destruct messages as [| e0 messages]; [intros [] |].
  intros He. right. apply in_or_app. now left.
Qed.

(** X5. [build_report] of the statistics program never raises, for any
    values and messages: on no value it gives the short report, which
    always carries the messages header; otherwise none of the division
    by the count, the indexing of the sorted list, the dict lookups of
    [mode] and the square root can fail, and the messages block is
    there exactly when there are messages.  Either way every message is
    a line of the report and the elapsed time is its last line. *)
Theorem statistics_report_never_raises
        (py_str_float py_format_6f : float -> string)
        (values : list pyfloat) (errors : list string) (elapsed : float) :
  exists lines,
    ComputeStatistics.report_lines py_str_float py_format_6f values errors elapsed
    = Returns lines
    /\ ComputeStatistics.build_report py_str_float py_format_6f values errors elapsed
       = Returns (join_with NEWLINE lines)
    /\ (forall e, In e errors -> In e lines)
    /\ last lines EmptyString
       = ("Elapsed time (seconds): " ++ py_format_6f elapsed)%string
    /\ (values = [] ->
        lines = ["No valid numeric data found. Cannot compute statistics.";
                 EmptyString;
                 "Errors found while reading the file:"]
                ++ errors
                ++ [EmptyString;
                    ("Elapsed time (seconds): " ++ py_format_6f elapsed)%string])
    /\ (values <> [] ->
        exists metrics,
          List.length metrics = 9%nat
          /\ nth_error metrics 0 = Some "DESCRIPTIVE STATISTICS (POPULATION)"
          /\ nth_error metrics 2
             = Some ("COUNT: " ++ str_of_nat (List.length values))%string
          /\ lines
             = metrics
               ++ message_block
                    "Errors found while reading the file (execution continued):"
                    errors
               ++ [("Elapsed time (seconds): " ++ py_format_6f elapsed)%string]).
Proof.
  unfold ComputeStatistics.build_report, ComputeStatistics.report_lines.
  destruct values as [| v values].
  - cbn [truthy_list negb]. eexists. split; [reflexivity |].
    split; [reflexivity |]. split; [| split; [| split]].
    + intros e He. apply in_or_app. right. apply in_or_app. now left.
    + rewrite app_assoc.
      change [EmptyString;
              ("Elapsed time (seconds): " ++ py_format_6f elapsed)%string]
        with ([EmptyString]
              ++ [("Elapsed time (seconds): " ++ py_format_6f elapsed)%string]).
      rewrite app_assoc. apply last_last.
    + reflexivity.
    + congruence.
  - cbn [truthy_list negb].
    assert (map fval (v :: values) <> []) as Hne by discriminate.
    destruct (mean_returns _ Hne) as (m & ->).
    destruct (median_returns _ Hne) as (md & ->).
    rewrite mode_by_frequency.
    cbn [bind].
    destruct (population_variance_sign (map fval (v :: values)) m)
      as (variance & -> & Hsign).
    cbn [bind]. unfold population_std_dev.
    rewrite (not_negative_ltb_zero _ Hsign). cbn [bind].
    rewrite message_block_lines.
    eexists. split; [reflexivity |]. split; [reflexivity |].
    split; [| split; [| split]].
    + intros e He. apply in_or_app. left. apply in_or_app. right.
      now apply message_block_In.
    + apply last_last.
    + discriminate.
    + intros _. eexists. split; [| split; [| split]]; cycle 3.
      * rewrite <- app_assoc. reflexivity.
      * reflexivity.
      * reflexivity.
      * reflexivity.
Qed.

(** ** More on radix conversion *)

Lemma all_chars_app (p : ascii -> bool) (a b : string) :
  all_chars p (a ++ b)%string = all_chars p a && all_chars p b.
Proof.
  induction a as [| c a IH]; simpl; [reflexivity |].
  now rewrite IH, andb_assoc.
Qed.

Lemma string_length_app (a b : string) :
  String.length (a ++ b)%string = (String.length a + String.length b)%nat.
Proof. induction a as [| c a IH]; simpl; [| rewrite IH]; reflexivity. Qed.

Lemma to_base_loop_done (fuel : nat) (n base : Z) (acc : list string) :
  n <= 0 -> to_base_loop fuel n base acc = Returns acc.
Proof.
  intros Hn. destruct fuel; simpl;
    replace (0 <? n) with false by (symmetry; apply Z.ltb_ge; lia); reflexivity.
Qed.

Section Canonical.

Variable base : Z.
Hypothesis base_2_or_16 : base = 2 \/ base = 16.

Lemma digit_in_alphabet (r : Z) :
  0 <= r < base ->
  exists c,
    (if base =? 16 then str_getitem HEX_DIGITS r
     else Returns (str_of_int r)) = Returns (String c EmptyString)
    /\ contains (alphabet base) c = true
    /\ (r <> 0 -> c <> "0"%char).
Proof.
  intros Hr.
  destruct base_2_or_16 as [-> | ->].
  - assert (r = 0 \/ r = 1) as [-> | ->] by lia;
      eexists; (split; [reflexivity | split; [reflexivity |]]);
      [congruence | discriminate].
  - assert (r = 0 \/ r = 1 \/ r = 2 \/ r = 3 \/ r = 4 \/ r = 5 \/ r = 6
            \/ r = 7 \/ r = 8 \/ r = 9 \/ r = 10 \/ r = 11 \/ r = 12
            \/ r = 13 \/ r = 14 \/ r = 15) as Hcases by lia.
    destruct Hcases as [-> | Hcases];
      [eexists; split; [reflexivity | split; [reflexivity | congruence]] |].
    repeat (destruct Hcases as [-> | Hcases];
            [eexists; split; [reflexivity | split; [reflexivity | discriminate]] |]).
    subst r; eexists; split; [reflexivity | split; [reflexivity | discriminate]].
Qed.

(** The digits the loop appends: characters of the alphabet, the most
    significant one not a zero, and as many as the size of [n] in the
    base asks for. *)
Lemma to_base_loop_digits (fuel : nat) :
  forall n acc,
    0 <= n < 2 ^ Z.of_nat fuel ->
    exists ds,
      to_base_loop fuel n base acc = Returns (acc ++ ds)
      /\ (n = 0 -> ds = [])
      /\ all_chars (contains (alphabet base)) (join (rev ds)) = true
      /\ (0 < n ->
          (exists c rest, join (rev ds) = String c rest /\ c <> "0"%char)
          /\ base ^ (Z.of_nat (String.length (join (rev ds))) - 1) <= n
             < base ^ Z.of_nat (String.length (join (rev ds)))).
Proof.
  assert (Hbase : 2 <= base) by (destruct base_2_or_16; lia).
  induction fuel as [| fuel IH]; intros n acc Hn.
  - assert (n = 0) by (simpl in Hn; lia). subst n.
    exists []. simpl. rewrite app_nil_r. repeat split; lia.
  - destruct (Z.eq_dec n 0) as [-> | Hnz].
    + exists []. simpl. rewrite app_nil_r. repeat split; lia.
    + assert (Hpos : 0 < n) by lia.
      assert (Hr : 0 <= n mod base < base) by (apply Z.mod_pos_bound; lia).
      destruct (digit_in_alphabet _ Hr) as (c & Hdigit & Halpha & Hzero).
      assert (Hq : 0 <= n / base < 2 ^ Z.of_nat fuel).
      { split; [apply Z.div_pos; lia |].
        apply Z.div_lt_upper_bound; [lia |].
        rewrite Nat2Z.inj_succ, Z.pow_succ_r in Hn by lia.
        assert (0 < 2 ^ Z.of_nat fuel) by (apply Z.pow_pos_nonneg; lia).
        nia. }
      destruct (IH (n / base) (acc ++ [String c EmptyString]) Hq)
        as (ds & Hloop & Hnil & Hall & Htop).
      pose proof (Z.div_mod n base ltac:(lia)) as Hdm.
      exists (String c EmptyString :: ds).
      split; [| split; [| split]].
      * cbn [to_base_loop].
        apply Z.ltb_lt in Hpos; rewrite Hpos.
        replace (base =? 0) with false by (symmetry; apply Z.eqb_neq; lia).
        cbv zeta. rewrite Hdigit. cbn [bind].
        rewrite Hloop, <- app_assoc. reflexivity.
      * intros ->. lia.
      * cbn [rev]. rewrite join_app, all_chars_app, Hall. simpl.
        now rewrite Halpha.
      * intros _. cbn [rev]. rewrite join_app.
        change (join [String c EmptyString]) with (String c EmptyString).
        destruct (Z.eq_dec (n / base) 0) as [Hq0 | Hq0].
        -- rewrite (Hnil Hq0). simpl.
           split; [exists c, EmptyString; split; [reflexivity |];
                   apply Hzero; lia |].
           change (Z.pow_pos base 1) with (base ^ 1).
           rewrite Z.pow_1_r. lia.
        -- destruct (Htop ltac:(lia)) as ((c' & rest & Hjoin & Hc') & Hlow & Hhigh).
           rewrite Hjoin in *. split.
           ++ exists c', (rest ++ String c EmptyString)%string. split; [reflexivity | exact Hc'].
           ++ change (String c' rest ++ String c EmptyString)%string
                with (String c' (rest ++ String c EmptyString)%string).
              cbn [String.length] in *. rewrite string_length_app. simpl String.length.
              rewrite Nat.add_1_r.
              replace (Z.of_nat (S (S (String.length rest))) - 1)
                with (Z.succ (Z.of_nat (S (String.length rest)) - 1)) by lia.
              replace (Z.of_nat (S (S (String.length rest))))
                with (Z.succ (Z.of_nat (S (String.length rest)))) by lia.
              rewrite !Z.pow_succ_r by lia.
              set (P := base ^ (Z.of_nat (S (String.length rest)) - 1)) in *.
              set (Q := base ^ Z.of_nat (S (String.length rest))) in *.
              nia.
Qed.

End Canonical.

(** X6. For a non-zero [n] and base 2 or 16, [to_base] writes an
    optional minus sign followed by digits of the base only (upper-case
    in base 16), with no leading zero, and exactly as many digits [L]
    as [base ^ (L - 1) <= |n| < base ^ L] asks for. *)
Theorem to_base_canonical_digits (fuel : nat) (n base : Z) :
  base = 2 \/ base = 16 ->
  n <> 0 ->
  Z.abs n < 2 ^ Z.of_nat fuel ->
  exists digits,
    to_base fuel n base
    = Returns ((if (n <? 0)%Z then "-" else EmptyString) ++ digits)%string
    /\ all_chars (contains (alphabet base)) digits = true
    /\ (exists c rest, digits = String c rest /\ c <> "0"%char)
    /\ base ^ (Z.of_nat (String.length digits) - 1) <= Z.abs n
       < base ^ Z.of_nat (String.length digits).
Proof.
  intros Hbase Hnz Hfuel.
  destruct (to_base_loop_digits base Hbase fuel (Z.abs n) [] ltac:(lia))
    as (ds & Hloop & _ & Hall & Htop).
  destruct (Htop ltac:(lia)) as (Hfirst & Hsize).
  exists (join (rev ds)). split; [| auto].
  unfold to_base.
  replace (n =? 0) with false by (symmetry; apply Z.eqb_neq; lia).
  destruct (n <? 0) eqn:Hneg.
  - apply Z.ltb_lt in Hneg. replace (- n) with (Z.abs n) by lia.
    rewrite Hloop. reflexivity.
  - apply Z.ltb_ge in Hneg. replace n with (Z.abs n) at 1 by lia.
    rewrite Hloop. reflexivity.
Qed.

Lemma to_base_canonical_digits_witness :
  (16 = 2 \/ 16 = 16) /\ -255 <> 0 /\ Z.abs (-255) < 2 ^ Z.of_nat 8
  /\ exists digits,
      to_base 8 (-255) 16 = Returns ("-" ++ digits)%string
      /\ all_chars (contains (alphabet 16)) digits = true
      /\ 16 ^ (Z.of_nat (String.length digits) - 1) <= 255
         < 16 ^ Z.of_nat (String.length digits).
Proof.
  split; [now right |]. split; [discriminate |]. split; [reflexivity |].
  destruct (to_base_canonical_digits 8 (-255) 16) as (digits & Hs & Hall & _ & Hsize);
    [now right | discriminate | reflexivity |].
  exists digits. repeat split; try assumption; apply Hsize.
Defined.

Lemma to_base_loop_returns (base : Z) (fuel : nat) :
  2 <= base ->
  forall n acc,
    0 <= n < 2 ^ Z.of_nat fuel ->
    exists digits, to_base_loop fuel n base acc = Returns digits.
Proof.
  intros Hbase. induction fuel as [| fuel IH]; intros n acc Hn.
  - exists acc. apply to_base_loop_done. simpl in Hn. lia.
  - destruct (Z.eq_dec n 0) as [-> | Hnz].
    + exists acc. now apply to_base_loop_done.
    + assert (Hpos : 0 < n) by lia.
      assert (Hr : 0 <= n mod base < base) by (apply Z.mod_pos_bound; lia).
      assert (Hq : 0 <= n / base < 2 ^ Z.of_nat fuel).
      { split; [apply Z.div_pos; lia |].
        apply Z.div_lt_upper_bound; [lia |].
        rewrite Nat2Z.inj_succ, Z.pow_succ_r in Hn by lia.
        assert (0 < 2 ^ Z.of_nat fuel) by (apply Z.pow_pos_nonneg; lia).
        nia. }
      cbn [to_base_loop].
      apply Z.ltb_lt in Hpos; rewrite Hpos.
      replace (base =? 0) with false by (symmetry; apply Z.eqb_neq; lia).
      cbv zeta.
      destruct (base =? 16) eqn:H16.
      * apply Z.eqb_eq in H16.
        destruct (digit_of_remainder base (or_intror H16) _ Hr) as (c & Hdigit & _).
        rewrite H16 in Hdigit at 1. rewrite Z.eqb_refl in Hdigit.
        rewrite Hdigit. cbn [bind]. apply IH, Hq.
      * cbn [bind]. apply IH, Hq.
Qed.

Lemma to_base_loop_forever (fuel : nat) :
  forall n acc, 0 < n -> to_base_loop fuel n 1 acc = Timeout.
Proof.
  induction fuel as [| fuel IH]; intros n acc Hn; cbn [to_base_loop];
    apply Z.ltb_lt in Hn as Hlt; rewrite Hlt; [reflexivity |].
  change (1 =? 0) with false. change (1 =? 16) with false. cbv zeta iota.
  cbn [bind]. rewrite Z.div_1_r. apply IH, Hn.
Qed.

(** X7. [to_base] on a non-zero number, for a base of at most 4300
    decimal digits, so that [str] converts every remainder: it returns
    for every such base from 2 up, within as many steps as the number
    has bits, and for every such negative base, after one step; it
    raises [ZeroDivisionError] for base 0; and for base 1 its loop never
    ends, whatever the number of steps allowed. *)
Theorem to_base_by_base (n : Z) :
  n <> 0 ->
  (forall fuel base,
      2 <= base <= 10 ^ MAX_STR_DIGITS -> Z.abs n < 2 ^ Z.of_nat fuel ->
      exists s, to_base fuel n base = Returns s)
  /\ (forall fuel base,
        - 10 ^ MAX_STR_DIGITS <= base < 0 -> (1 <= fuel)%nat ->
        exists s, to_base fuel n base = Returns s)
  /\ (forall fuel,
        (1 <= fuel)%nat -> to_base fuel n 0 = Raises ZeroDivisionError)
  /\ (forall fuel, to_base fuel n 1 = Timeout).
Proof.
  intros Hnz.
  assert (forall fuel base,
             to_base fuel n base
             = (digits <- to_base_loop fuel (Z.abs n) base [] ;;
                Returns (if n <? 0 then ("-" ++ join (rev digits))%string
                         else join (rev digits)))) as Hunfold.
  { intros fuel base. unfold to_base.
    replace (n =? 0) with false by (symmetry; apply Z.eqb_neq; lia).
    destruct (n <? 0) eqn:Hneg;
      [apply Z.ltb_lt in Hneg; replace (- n) with (Z.abs n) by lia
      | apply Z.ltb_ge in Hneg; replace n with (Z.abs n) at 1 by lia];
      reflexivity. }
  split; [| split; [| split]].
  - intros fuel base [Hbase _] Hfuel. rewrite Hunfold.
    destruct (to_base_loop_returns base fuel Hbase (Z.abs n) [] ltac:(lia))
      as (digits & ->).
    eexists. reflexivity.
  - intros fuel base [_ Hbase] Hfuel. rewrite Hunfold.
    destruct fuel as [| fuel]; [lia |]. cbn [to_base_loop].
    replace (0 <? Z.abs n) with true by (symmetry; apply Z.ltb_lt; lia).
    replace (base =? 0) with false by (symmetry; apply Z.eqb_neq; lia).
    replace (base =? 16) with false by (symmetry; apply Z.eqb_neq; lia).
    cbv zeta. cbn [bind].
    rewrite to_base_loop_done; [eexists; reflexivity |].
    assert (Z.abs n / base < 0); [| lia].
    pose proof (Z.div_mod (Z.abs n) base ltac:(lia)) as Hdm.
    pose proof (Z.mod_neg_bound (Z.abs n) base Hbase) as Hmod.
    nia.
  - intros fuel Hfuel. rewrite Hunfold.
    destruct fuel as [| fuel]; [lia |]. cbn [to_base_loop].
    replace (0 <? Z.abs n) with true by (symmetry; apply Z.ltb_lt; lia).
    reflexivity.
  - intros fuel. rewrite Hunfold.
    rewrite to_base_loop_forever by lia. reflexivity.
Qed.

Lemma to_base_by_base_witness :
  7 <> 0
  /\ (exists s, to_base 3 7 5 = Returns s)
  /\ (exists s, to_base 1 7 (-2) = Returns s)
  /\ to_base 1 7 0 = Raises ZeroDivisionError
  /\ to_base 1000 7 1 = Timeout.
Proof.
  assert (7 <> 0) as H7 by discriminate.
  destruct (to_base_by_base 7 H7) as (Hup & Hneg & Hzero & Hone).
  split; [exact H7 |].
  assert (5 <= 10 ^ MAX_STR_DIGITS) as Hfive
    by (apply Z.leb_le; vm_compute; reflexivity).
  assert (- 10 ^ MAX_STR_DIGITS <= -2) as Htwo
    by (apply Z.leb_le; vm_compute; reflexivity).
  split; [apply Hup; [split; [discriminate | exact Hfive] | reflexivity] |].
  split; [apply Hneg; [split; [exact Htwo | reflexivity] | apply le_n] |].
  split; [apply Hzero, le_n | apply Hone].
Defined.

(** ** The conversion report *)

Lemma conversion_lines_read_back (fuel : nat) (values : list Z) :
  Forall (fun v => Z.abs v < 2 ^ Z.of_nat fuel) values ->
  forall lines,
  exists converted,
    conversion_lines fuel lines values = Returns (lines ++ converted)
    /\ Forall2 (fun v line =>
                  exists binary hexa,
                    line = (str_of_int v ++ " -> " ++ binary
                            ++ " | " ++ hexa)%string
                    /\ signed_literal 2 binary = Some v
                    /\ signed_literal 16 hexa = Some v)
               values converted.
Proof.
  induction 1 as [| v values Hv Hvalues IH]; intros lines.
  - exists []. simpl. rewrite app_nil_r. split; [reflexivity | constructor].
  - destruct (to_base_roundtrip_at 2 (or_introl eq_refl) fuel v Hv)
      as (binary & Hbin & Hb).
    destruct (to_base_roundtrip_at 16 (or_intror eq_refl) fuel v Hv)
      as (hexa & Hhex & Hh).
    cbn [conversion_lines]. rewrite Hbin, Hhex. cbn [bind].
    destruct (IH (lines ++ [(str_of_int v ++ " -> " ++ binary
                             ++ " | " ++ hexa)%string]))
      as (converted & Hrun & Hall).
    eexists (_ :: converted). rewrite Hrun, <- app_assoc.
    split; [reflexivity |].
    constructor; [| exact Hall]. exists binary, hexa. auto.
Qed.

(** X8. When every value has at most 4300 decimal digits, so that the
    report can print it in decimal, and the step budget covers every
    value, [build_report] of the conversion program returns the three
    header lines and a blank one, then one line per value in input
    order, each made of the decimal form, a binary form and a
    hexadecimal form that both read back as that value, then a blank
    line, the messages block when there are messages, and the elapsed
    time. *)
Theorem conversion_report_lines
        (py_format_6f : float -> string) (fuel : nat)
        (values : list Z) (errors : list string) (elapsed : float) :
  Forall (fun v => Z.abs v < 10 ^ MAX_STR_DIGITS) values ->
  Forall (fun v => Z.abs v < 2 ^ Z.of_nat fuel) values ->
  exists converted,
    ConvertNumbers.build_report py_format_6f fuel values errors elapsed
    = Returns
        (join_with NEWLINE
           (["NUMBER CONVERSION RESULTS";
             "-------------------------";
             "FORMAT: DECIMAL -> BINARY | HEX";
             EmptyString]
            ++ converted ++ [EmptyString]
            ++ message_block
                 "Errors found while reading the file (execution continued):"
                 errors
            ++ [("Elapsed time (seconds): " ++ py_format_6f elapsed)%string]))
    /\ Forall2 (fun v line =>
                  exists binary hexa,
                    line = (str_of_int v ++ " -> " ++ binary
                            ++ " | " ++ hexa)%string
                    /\ signed_literal 2 binary = Some v
                    /\ signed_literal 16 hexa = Some v)
               values converted.
Proof.
  intros _ Hfuel.
  destruct (conversion_lines_read_back fuel values Hfuel
              ["NUMBER CONVERSION RESULTS";
               "-------------------------";
               "FORMAT: DECIMAL -> BINARY | HEX";
               EmptyString])
    as (converted & Hrun & Hall).
  exists converted. split; [| exact Hall].
  unfold ConvertNumbers.build_report, ConvertNumbers.report_lines.
  rewrite Hrun. cbn [bind]. rewrite message_block_lines.
  do 2 f_equal. rewrite <- !app_assoc. reflexivity.
Qed.

Lemma conversion_report_lines_witness :
  Forall (fun v => Z.abs v < 10 ^ MAX_STR_DIGITS) [10; -255; 0]
  /\ Forall (fun v => Z.abs v < 2 ^ Z.of_nat 8) [10; -255; 0]
  /\ exists converted,
      Forall2 (fun v line =>
                 exists binary hexa,
                   line = (str_of_int v ++ " -> " ++ binary
                           ++ " | " ++ hexa)%string
                   /\ signed_literal 2 binary = Some v
                   /\ signed_literal 16 hexa = Some v)
              [10; -255; 0] converted.
Proof.
  assert (Forall (fun v => Z.abs v < 2 ^ Z.of_nat 8) [10; -255; 0]) as Hfuel
    by (repeat constructor).
  assert (Forall (fun v => Z.abs v < 10 ^ MAX_STR_DIGITS) [10; -255; 0])
    as Hdigits
    by (repeat constructor; apply Z.ltb_lt; vm_compute; reflexivity).
  split; [exact Hdigits |]. split; [exact Hfuel |].
  destruct (conversion_report_lines (fun _ => EmptyString) 8 [10; -255; 0] []
              0%float Hdigits Hfuel) as (converted & _ & Hall).
  exists converted. exact Hall.
Defined.

(** ** Normalized words *)

Lemma lower_char_idempotent (c : ascii) :
  lower_char (lower_char c) = lower_char c.
Proof. destruct c as [[] [] [] [] [] [] [] []]; reflexivity. Qed.

Lemma lower_char_punctuation (c : ascii) :
  contains PUNCTUATION (lower_char c) = contains PUNCTUATION c.
Proof. destruct c as [[] [] [] [] [] [] [] []]; reflexivity. Qed.

Lemma lower_char_isspace (c : ascii) : isspace (lower_char c) = isspace c.
Proof. destruct c as [[] [] [] [] [] [] [] []]; reflexivity. Qed.

Lemma lower_idempotent (s : string) : lower (lower s) = lower s.
Proof.
  induction s as [| c s IH]; simpl; [reflexivity |].
  now rewrite lower_char_idempotent, IH.
Qed.

Lemma first_char_lower (s : string) :
  first_char (lower s) = option_map lower_char (first_char s).
Proof. destruct s; reflexivity. Qed.

Lemma last_char_lower (s : string) :
  last_char (lower s) = option_map lower_char (last_char s).
Proof.
  induction s as [| c s IH]; [reflexivity |].
  destruct s as [| d s]; [reflexivity |].
  change (last_char (lower (String c (String d s))))
    with (last_char (lower (String d s))).
  exact IH.
Qed.

Lemma all_chars_lower (p : ascii -> bool) (s : string) :
  (forall c, p (lower_char c) = p c) ->
  all_chars p (lower s) = all_chars p s.
Proof.
  intros Hp. induction s as [| c s IH]; simpl; [reflexivity |].
  now rewrite Hp, IH.
Qed.

Section StripFixed.

Variable drop : ascii -> bool.

Lemma rstrip_by_fixed (s : string) :
  (forall c, last_char s = Some c -> drop c = false) ->
  rstrip_by drop s = s.
Proof.
  induction s as [| c s IH]; intros Hlast; [reflexivity |].
  destruct s as [| d s].
  - simpl. now rewrite (Hlast c eq_refl).
  - cbn [rstrip_by]. cbn [rstrip_by] in IH. rewrite IH; [reflexivity |].
    intros e He. apply Hlast. exact He.
Qed.

(** A string that neither starts nor ends with a dropped character is
    left as it is. *)
Lemma strip_by_fixed (s : string) :
  (forall c, first_char s = Some c -> drop c = false) ->
  (forall c, last_char s = Some c -> drop c = false) ->
  strip_by drop s = s.
Proof.
  intros Hfirst Hlast. unfold strip_by.
  replace (lstrip_by drop s) with s; [now apply rstrip_by_fixed |].
  destruct s as [| c s]; [reflexivity |].
  simpl. now rewrite (Hfirst c eq_refl).
Qed.

Lemma strip_by_keeps (p : ascii -> bool) (s : string) :
  all_chars p s = true -> all_chars p (strip_by drop s) = true.
Proof.
  intros Hs.
  destruct (strip_by_spec drop s) as (pre & post & Heq & _).
  rewrite Heq, !all_chars_app, !andb_true_iff in Hs. tauto.
Qed.

End StripFixed.

Lemma normalize_word_fixed (token : string) :
  normalize_word (normalize_word token) = normalize_word token.
Proof.
  unfold normalize_word, strip_chars.
  destruct (strip_by_spec (contains PUNCTUATION) token)
    as (pre & post & _ & _ & _ & Hfirst & Hlast).
  rewrite (strip_by_fixed _ (lower (strip_by (contains PUNCTUATION) token))).
  - apply lower_idempotent.
  - intros c. rewrite first_char_lower.
    destruct (first_char (strip_by (contains PUNCTUATION) token)) as [c0 |] eqn:H0;
      [| discriminate].
    intros [= <-]. rewrite lower_char_punctuation. now apply Hfirst.
  - intros c. rewrite last_char_lower.
    destruct (last_char (strip_by (contains PUNCTUATION) token)) as [c0 |] eqn:H0;
      [| discriminate].
    intros [= <-]. rewrite lower_char_punctuation. now apply Hlast.
Qed.

(** X9. [normalize_word] is idempotent: a normalized word normalizes
    to itself, so counting words again from a list of normalized words
    changes nothing. *)
Theorem normalize_word_idempotent (token : string) :
  normalize_word (normalize_word token) = normalize_word token.
Proof. apply normalize_word_fixed. Qed.

Lemma split_from_tokens (s : string) :
  forall cur,
    all_chars (fun c => negb (isspace c)) cur = true ->
    Forall (fun token => token <> EmptyString
                         /\ all_chars (fun c => negb (isspace c)) token = true)
           (split_from cur s).
Proof.
  induction s as [| c s IH]; intros cur Hcur; simpl.
  - destruct cur; constructor; [split; [discriminate | exact Hcur] | constructor].
  - destruct (isspace c) eqn:Hc.
    + destruct cur as [| d cur].
      * apply IH. reflexivity.
      * constructor; [split; [discriminate | exact Hcur] |]. apply IH. reflexivity.
    + apply IH. rewrite all_chars_app, Hcur. simpl. now rewrite Hc.
Qed.

(** X10. Whatever the file, [read_words] returns at most one message,
    and none when it returns a word; every word it returns is
    non-empty, holds no whitespace, and is already normalized
    (lower-case, no stripped character at either end). *)
Theorem read_words_gives_normalized_words (file : file_content) :
  let '(words, messages) := read_words file in
  (List.length messages <= 1)%nat
  /\ (words <> [] -> messages = [])
  /\ Forall (fun w => w <> EmptyString
                      /\ all_chars (fun c => negb (isspace c)) w = true
                      /\ normalize_word w = w)
            words.
Proof.
  destruct file as [| text]; cbn [read_words app].
  - repeat split; [auto | congruence | constructor].
  - destruct (split text) as [| t ts] eqn:Hsplit.
    + repeat split; [auto | congruence | constructor].
    + rewrite collect_words_filter. cbn [app].
      split; [simpl; lia |]. split; [reflexivity |].
      pose proof (split_from_tokens text EmptyString eq_refl) as Htokens.
      fold (split text) in Htokens. rewrite Hsplit in Htokens.
      apply Forall_forall. intros w Hw.
      apply filter_In in Hw. destruct Hw as [Hw Htruthy].
      apply in_map_iff in Hw. destruct Hw as (token & <- & Htoken).
      rewrite Forall_forall in Htokens.
      destruct (Htokens token Htoken) as [_ Hnospace].
      split; [| split].
      * destruct (normalize_word token); [discriminate | discriminate].
      * unfold normalize_word, strip_chars.
        rewrite all_chars_lower.
        -- now apply strip_by_keeps.
        -- intros c. now rewrite lower_char_isspace.
      * apply normalize_word_fixed.
Qed.

(** ** The word table and its report *)

Lemma string_key_sym (x y : string) :
  String.eqb x y = true -> String.eqb y x = true.
Proof. rewrite String.eqb_sym. auto. Qed.

Lemma string_key_trans (x y z : string) :
  String.eqb x y = true -> String.eqb y z = true -> String.eqb x z = true.
Proof. rewrite !String.eqb_eq. congruence. Qed.

Lemma frequency_count_occ (w : string) (words : list string) :
  frequency String.eqb w words = Z.of_nat (count_occ string_dec words w).
Proof.
  unfold frequency. f_equal.
  induction words as [| x words IH]; simpl; [reflexivity |].
  destruct (string_dec x w) as [-> | Hne].
  - rewrite String.eqb_refl. simpl. now rewrite IH.
  - apply String.eqb_neq in Hne. rewrite Hne. exact IH.
Qed.

Lemma word_count_get (words : list string) (w : string) :
  Dict.get String.eqb (count_frequencies words) w 0
  = Z.of_nat (count_occ string_dec words w).
Proof.
  unfold count_frequencies.
  rewrite (get_count_into String.eqb string_key_sym string_key_trans words [] w).
  rewrite frequency_count_occ. reflexivity.
Qed.

Lemma word_count_lookup (words : list string) (w : string) :
  In w words ->
  Dict.lookup String.eqb (count_frequencies words) w
  = Some (Z.of_nat (count_occ string_dec words w)).
Proof.
  intros Hw. unfold count_frequencies.
  rewrite (lookup_element String.eqb String.eqb_refl string_key_sym
             string_key_trans words w Hw).
  now rewrite frequency_count_occ.
Qed.

Lemma distinct_keys_NoDup (d : @Dict.dict string Z) :
  distinct_keys String.eqb d -> NoDup (Dict.keys d).
Proof.
  induction d as [| [k c] d IH]; simpl; [constructor |].
  intros [Hnone Hd]. constructor; [| auto].
  intros Hin. apply in_map_iff in Hin. destruct Hin as ([k' c'] & Hk & Hin).
  simpl in Hk. subst k'.
  pose proof (lookup_missing String.eqb d k Hnone k c' Hin) as Hneq.
  rewrite String.eqb_refl in Hneq. discriminate.
Qed.

Lemma word_count_keys_NoDup (words : list string) :
  NoDup (Dict.keys (count_frequencies words)).
Proof.
  apply distinct_keys_NoDup.
  apply (distinct_count_into String.eqb string_key_sym string_key_trans words []).
  exact I.
Qed.

Lemma word_count_keys (words : list string) (w : string) :
  In w (Dict.keys (count_frequencies words)) <-> In w words.
Proof.
  split.
  - intros Hin.
    destruct (count_into_keys String.eqb words [] w Hin) as [[] | H]; exact H.
  - intros Hw. pose proof (word_count_lookup words w Hw) as Hl.
    destruct (lookup_found String.eqb _ _ _ Hl) as (k & Hin & Hk).
    apply String.eqb_eq in Hk. subst k.
    apply (in_map fst) in Hin. exact Hin.
Qed.

(** X11. The table of [count_frequencies] holds every distinct word of
    the input once and no other key, and looking a word up gives the
    number of its occurrences in the input, 0 for a word that is not
    there. *)
Theorem count_frequencies_counts_occurrences (words : list string) :
  NoDup (Dict.keys (count_frequencies words))
  /\ (forall w, In w (Dict.keys (count_frequencies words)) <-> In w words)
  /\ (forall w,
        Dict.get String.eqb (count_frequencies words) w 0
        = Z.of_nat (count_occ string_dec words w))
  /\ (forall w,
        In w words ->
        Dict.getitem String.eqb (count_frequencies words) w
        = Returns (Z.of_nat (count_occ string_dec words w))).
Proof.
  split; [apply word_count_keys_NoDup |].
  split; [apply word_count_keys |].
  split; [apply word_count_get |].
  intros w Hw. unfold Dict.getitem. now rewrite word_count_lookup.
Qed.

Lemma count_frequencies_counts_occurrences_witness :
  In "be" ["to"; "be"; "or"; "not"; "to"; "be"]
  /\ Dict.getitem String.eqb
       (count_frequencies ["to"; "be"; "or"; "not"; "to"; "be"]) "be"
     = Returns 2.
Proof.
  assert (In "be" ["to"; "be"; "or"; "not"; "to"; "be"]) as Hin
    by (right; left; reflexivity).
  split; [exact Hin |].
  apply (proj2 (proj2 (proj2 (count_frequencies_counts_occurrences
                                ["to"; "be"; "or"; "not"; "to"; "be"]))) "be" Hin).
Defined.

(** *** The order of strings *)

Lemma string_compare_refl (a : string) : String.compare a a = Eq.
Proof.
  induction a as [| x a IH]; simpl; [reflexivity |].
  unfold Ascii.compare. now rewrite N.compare_refl.
Qed.

Lemma string_lt_trans (a : string) :
  forall b c,
    String.compare a b = Lt -> String.compare b c = Lt ->
    String.compare a c = Lt.
Proof.
  induction a as [| x a IH]; intros [| y b] [| z c]; simpl;
    try discriminate; try reflexivity.
  unfold Ascii.compare.
  destruct (N.compare_spec (N_of_ascii x) (N_of_ascii y)) as [Hxy | Hxy | Hxy];
    destruct (N.compare_spec (N_of_ascii y) (N_of_ascii z)) as [Hyz | Hyz | Hyz];
    destruct (N.compare_spec (N_of_ascii x) (N_of_ascii z)) as [Hxz | Hxz | Hxz];
    try discriminate; try reflexivity; try lia.
  apply IH.
Qed.

Lemma string_ltb_total (a b : string) :
  a <> b -> String.ltb a b = false -> String.ltb b a = true.
Proof.
  unfold String.ltb. intros Hne.
  rewrite (String.compare_antisym b a).
  destruct (String.compare a b) eqn:Hc; simpl; try discriminate; auto.
  apply String.compare_eq_iff in Hc. contradiction.
Qed.

Lemma string_ltb_trans (a b c : string) :
  String.ltb a b = true -> String.ltb b c = true -> String.ltb a c = true.
Proof.
  unfold String.ltb.
  destruct (String.compare a b) eqn:Hab; try discriminate.
  destruct (String.compare b c) eqn:Hbc; try discriminate.
  now rewrite (string_lt_trans a b c Hab Hbc).
Qed.

Lemma insert_sorted_str_perm (x : string) (l : list string) :
  Permutation (insert_sorted_str x l) (x :: l).
Proof.
  induction l as [| y l IH]; simpl.
  - apply Permutation_refl.
  - destruct (String.ltb y x).
    + eapply perm_trans; [apply perm_skip, IH | apply perm_swap].
    + apply Permutation_refl.
Qed.

Lemma sorted_str_perm (l : list string) : Permutation (sorted_str l) l.
Proof.
  induction l as [| x l IH]; simpl.
  - apply perm_nil.
  - eapply perm_trans; [apply insert_sorted_str_perm | apply perm_skip, IH].
Qed.

Lemma insert_sorted_str_ascending (x : string) (l : list string) :
  ~ In x l ->
  StronglySorted (fun a b => String.ltb a b = true) l ->
  StronglySorted (fun a b => String.ltb a b = true) (insert_sorted_str x l).
Proof.
  induction l as [| y l IH]; simpl; intros Hx Hs.
  - repeat constructor.
  - apply StronglySorted_inv in Hs. destruct Hs as [Hs Hall].
    destruct (String.ltb y x) eqn:Hyx.
    + constructor; [apply IH; tauto |].
      eapply Permutation_Forall;
        [apply Permutation_sym, insert_sorted_str_perm |].
      constructor; [exact Hyx | exact Hall].
    + assert (String.ltb x y = true) as Hxy
        by (apply string_ltb_total; [intros ->; tauto | exact Hyx]).
      constructor; [constructor; assumption |].
      constructor; [exact Hxy |].
      eapply Forall_impl; [| exact Hall].
      intros z Hz. eapply string_ltb_trans; eassumption.
Qed.

(** Sorting distinct strings puts them in strictly ascending order. *)
Lemma sorted_str_ascending (l : list string) :
  NoDup l -> StronglySorted (fun a b => String.ltb a b = true) (sorted_str l).
Proof.
  induction 1 as [| x l Hx Hl IH]; simpl.
  - constructor.
  - apply insert_sorted_str_ascending; [| exact IH].
    intros Hin. apply Hx.
    eapply Permutation_in; [apply sorted_str_perm | exact Hin].
Qed.

Lemma word_lines_listed (words : list string) :
  forall listed lines,
    (forall w, In w listed -> In w words) ->
    word_lines (count_frequencies words) lines listed
    = Returns
        (lines
         ++ map (fun w => (w ++ ": "
                           ++ str_of_int (Z.of_nat (count_occ string_dec words w)))%string)
                listed).
Proof.
  induction listed as [| w listed IH]; intros lines Hsub; simpl.
  - now rewrite app_nil_r.
  - unfold Dict.getitem.
    rewrite (word_count_lookup words w (Hsub w (or_introl eq_refl))).
    cbn [bind]. rewrite IH by (intros u Hu; apply Hsub; now right).
    now rewrite <- app_assoc.
Qed.

(** X12. On the table of [count_frequencies], [build_report] of the
    word program never misses a key; it announces the number of
    distinct words, then lists each distinct word of the input exactly
    once, in strictly ascending order of its characters, with the
    number of its occurrences, then the messages block when there are
    messages, and the elapsed time. *)
Theorem word_report_lines
        (py_format_6f : float -> string)
        (words messages : list string) (elapsed : float) :
  exists listed,
    WordCount.build_report py_format_6f (count_frequencies words) messages elapsed
    = Returns
        (join_with NEWLINE
           (["WORD COUNT RESULTS";
             "------------------";
             ("DISTINCT WORDS: " ++ str_of_nat (List.length listed))%string;
             EmptyString]
            ++ map (fun w =>
                      (w ++ ": "
                       ++ str_of_int (Z.of_nat (count_occ string_dec words w)))%string)
                   listed
            ++ [EmptyString]
            ++ message_block
                 "Messages while reading the file (execution continued):"
                 messages
            ++ [("Elapsed time (seconds): " ++ py_format_6f elapsed)%string]))
    /\ StronglySorted (fun a b => String.ltb a b = true) listed
    /\ (forall w, In w listed <-> In w words).
Proof.
  exists (sorted_str (Dict.keys (count_frequencies words))).
  pose proof (sorted_str_perm (Dict.keys (count_frequencies words))) as Hperm.
  assert (forall w, In w (sorted_str (Dict.keys (count_frequencies words)))
                    <-> In w words) as Hin.
  { intros w. split; intros H.
    - apply word_count_keys. eapply Permutation_in; [exact Hperm | exact H].
    - apply word_count_keys in H.
      eapply Permutation_in; [apply Permutation_sym, Hperm | exact H]. }
  split; [| split; [| exact Hin]].
  - unfold WordCount.build_report, WordCount.report_lines.
    rewrite (word_lines_listed words) by (intros w; apply Hin).
    cbn [bind]. rewrite message_block_lines.
    replace (List.length (count_frequencies words))
      with (List.length (sorted_str (Dict.keys (count_frequencies words)))).
    + do 2 f_equal. rewrite <- !app_assoc. reflexivity.
    + rewrite (Permutation_length Hperm). unfold Dict.keys. apply length_map.
  - apply sorted_str_ascending, word_count_keys_NoDup.
Qed.

(** ** The mode of what was parsed *)

Lemma sorted_oids_NoDup (values : list pyfloat) :
  StronglySorted Nat.lt (map oid values) -> NoDup values.
Proof.
  induction values as [| v values IH]; simpl; intros Hs; [constructor |].
  apply StronglySorted_inv in Hs. destruct Hs as [Hs Hall].
  constructor; [| auto].
  intros Hin. rewrite Forall_forall in Hall.
  specialize (Hall (oid v) (in_map oid _ _ Hin)).
  unfold Nat.lt in Hall. lia.
Qed.

Lemma filter_none {A : Type} (f : A -> bool) (l : list A) :
  (forall x, In x l -> f x = false) -> filter f l = [].
Proof.
  induction l as [| a l IH]; simpl; intros H; [reflexivity |].
  rewrite (H a (or_introl eq_refl)). apply IH. intros x Hx. apply H. now right.
Qed.

Lemma same_object_once (values : list pyfloat) (v : pyfloat) :
  NoDup values -> In v values ->
  List.length (filter (fun u => is_ u v) values) = 1%nat.
Proof.
  induction 1 as [| u values Hu Hnd IH]; [intros [] |].
  intros [-> | Hin]; simpl.
  - replace (is_ v v) with true by (symmetry; now apply is_same_object).
    simpl. f_equal.
    rewrite (filter_none (fun u => is_ u v) values); [reflexivity |].
    intros x Hx.
    destruct (is_ x v) eqn:Hxv; [| reflexivity].
    apply is_same_object in Hxv. subst x. contradiction.
  - destruct (is_ u v) eqn:Huv; [| auto].
    apply is_same_object in Huv. subst u. contradiction.
Qed.

Lemma parsed_frequency (values : list pyfloat) (v : pyfloat) :
  NoDup values -> In v values ->
  frequency float_key_eqb v values
  = if PrimFloat.is_nan (fval v) then 1
    else Z.of_nat (List.length
                     (filter (fun u => PrimFloat.eqb (fval u) (fval v)) values)).
Proof.
  intros Hnd Hin. unfold frequency.
  destruct (PrimFloat.is_nan (fval v)) eqn:Hnan.
  - rewrite (filter_ext (fun u => float_key_eqb u v) (fun u => is_ u v)).
    + now rewrite same_object_once.
    + intros u. unfold float_key_eqb.
      destruct (PrimFloat.eqb (fval u) (fval v)) eqn:Heq;
        [| now rewrite orb_false_r].
      apply float_eqb_not_nan in Heq. destruct Heq as [_ Hv]. congruence.
  - f_equal. f_equal. apply filter_ext. intros u. unfold float_key_eqb.
    destruct (is_ u v) eqn:Huv; [| reflexivity].
    apply is_same_object in Huv. subst u. simpl.
    symmetry. now apply float_eqb_refl.
Qed.

(** X13. In the values that [parse_numbers] returns, each a fresh
    object, the frequency that [mode] counts for a value is the number
    of parsed values equal to it under [==], and 1 for a NaN; hence the
    mode of a parsed file is never a NaN, however many lines read as
    NaN. *)
Theorem mode_of_parsed_values
        (py_float : string -> option float) (text : string)
        (values : list pyfloat) (errors : list string) :
  parse_numbers py_float (Utf8Text text) = Returns (values, errors) ->
  (forall v,
      In v values ->
      frequency float_key_eqb v values
      = if PrimFloat.is_nan (fval v) then 1
        else Z.of_nat (List.length
                         (filter (fun u => PrimFloat.eqb (fval u) (fval v))
                                 values)))
  /\ (forall v, mode values = Returns [v] -> PrimFloat.is_nan (fval v) = false).
Proof.
  intros Hparse.
  destruct (parse_numbers_lines py_float (readlines text) 1%nat [] [])
    as (vs & es & Hrun & _ & Hsorted & _).
  unfold parse_numbers in Hparse. rewrite Hrun in Hparse.
  injection Hparse as <- <-. cbn [app] in *.
  pose proof (sorted_oids_NoDup vs Hsorted) as Hnd.
  split; [intros v Hv; now apply parsed_frequency |].
  intros v Hmode. rewrite mode_by_frequency in Hmode.
  destruct (max_frequency float_key_eqb vs <=? 1) eqn:Hmax;
    [discriminate |].
  apply Z.leb_gt in Hmax.
  destruct (find (fun v0 => frequency float_key_eqb v0 vs
                            =? max_frequency float_key_eqb vs) vs)
    as [v0 |] eqn:Hfind; [| discriminate].
  injection Hmode as ->.
  apply find_some in Hfind. destruct Hfind as [Hin Hfreq].
  apply Z.eqb_eq in Hfreq.
  rewrite (parsed_frequency vs v Hnd Hin) in Hfreq.
  destruct (PrimFloat.is_nan (fval v)); [lia | reflexivity].
Qed.

Lemma mode_of_parsed_values_witness :
  parse_numbers float_of_digits (file_of_lines ["7"; "3"; "7"])
  = Returns ([PyFloat 1 7; PyFloat 2 3; PyFloat 3 7], [])
  /\ frequency float_key_eqb (PyFloat 3 7)
       [PyFloat 1 7; PyFloat 2 3; PyFloat 3 7] = 2
  /\ PrimFloat.is_nan 7%float = false.
Proof.
  assert (parse_numbers float_of_digits (file_of_lines ["7"; "3"; "7"])
          = Returns ([PyFloat 1 7; PyFloat 2 3; PyFloat 3 7], [])) as Hparse
    by reflexivity.
  destruct (mode_of_parsed_values float_of_digits _ _ _ Hparse) as [Hfreq Hmode].
  split; [exact Hparse |]. split.
  - rewrite (Hfreq (PyFloat 3 7)); [reflexivity | right; right; left; reflexivity].
  - apply (Hmode (PyFloat 1 7)). reflexivity.
Defined.
